(** * Bayesian sales model of [ts_2_analysis.ipynb]: basis construction,
      random-walk trend, interpolation and emission rate

    The notebook works on JAX arrays of floating-point numbers.  The
    development below reads every array as a list of real numbers and every
    arithmetic operation as the exact operation on [R]; integers ([len],
    [range], the downsampling factor, week-day labels) are [nat] or [Z] as in
    Python.  A Python exception is a [Raise] in the [result] type.  A call to
    [numpyro.sample] is read at a given value of the sampled site: the model
    is a function of the data and of one value per latent site, which is how
    the sampler evaluates it. *)

From Stdlib Require Import Reals Lra Lia List ZArith Bool Arith.
Import ListNotations.
Open Scope R_scope.

(** ** Exceptions *)

Inductive exn : Type :=
| ValueError
| ZeroDivisionError.

Inductive result (A : Type) : Type :=
| Ok (a : A)
| Raise (e : exn).

Arguments Ok {A} a.
Arguments Raise {A} e.

Definition bind {A B : Type} (r : result A) (k : A -> result B) : result B :=
  match r with
  | Ok a => k a
  | Raise e => Raise e
  end.

Notation "x <- r ;; k" := (bind r (fun x => k))
  (at level 61, r at next level, right associativity).

Definition vec := list R.
Definition mat := list (list R).

(** ** Array primitives (numpy / jax.numpy) *)

Module Np.

(** [jnp.sum] of a one-dimensional array. *)
Definition sum (a : vec) : R := fold_right Rplus 0 a.

(** [jnp.mean(a, axis=-1)] of one row. *)
Definition mean (a : vec) : R := sum a / INR (length a).

(** Elementwise binary operation on two arrays of the same length. *)
Fixpoint zip_with (f : R -> R -> R) (a b : vec) : vec :=
  match a, b with
  | x :: a', y :: b' => f x y :: zip_with f a' b'
  | _, _ => []
  end.

(** [a + b] on one-dimensional arrays, with numpy broadcasting: equal
    lengths add elementwise, a length-one array is stretched, any other
    pair of shapes raises. *)
Definition add (a b : vec) : result vec :=
  if Nat.eqb (length a) (length b) then Ok (zip_with Rplus a b)
  else if Nat.eqb (length a) 1 then Ok (map (fun y => hd 0 a + y) b)
  else if Nat.eqb (length b) 1 then Ok (map (fun x => x + hd 0 b) a)
  else Raise ValueError.

(** [a * s] and [a + s] for a scalar [s]. *)
Definition scale (a : vec) (s : R) : vec := map (fun x => x * s) a.
Definition shift (a : vec) (s : R) : vec := map (fun x => x + s) a.

(** [jnp.exp], elementwise, as the exponential of real numbers: the
    overflow of the notebook's floating-point exponential to infinity at
    large arguments, and its underflow to zero at very negative ones, are
    not part of this reading. *)
Definition vexp (a : vec) : vec := map exp a.

(** Inner product of two arrays of the same length. *)
Definition inner (a b : vec) : R := sum (zip_with Rmult a b).

(** [jnp.dot(m, v)] for a two-dimensional [m] and a one-dimensional [v]:
    raises unless every row of [m] is as long as [v].  A matrix is its list
    of rows, so a matrix without rows carries no column count and is
    accepted with any [v]. *)
Definition dot (m : mat) (v : vec) : result vec :=
  if forallb (fun row => Nat.eqb (length row) (length v)) m
  then Ok (map (fun row => inner row v) m)
  else Raise ValueError.

(** [jnp.linspace(start, stop, num)]. *)
Definition linspace (start stop : R) (num : nat) : vec :=
  match num with
  | 0%nat => []
  | 1%nat => [start]
  | _ => map (fun i => start + INR i * ((stop - start) / INR (num - 1)))
             (seq 0 num)
  end.

(** [jnp.floor] and [jnp.ceil] followed by the cast to [int]. *)
Definition floor (x : R) : Z := Int_part x.
Definition ceil (x : R) : Z := (- Int_part (- x))%Z.

(** [a[i]] on a JAX array: a negative index counts from the end, and an
    index that is still out of range is clamped to the nearest valid
    position (JAX never raises on an out-of-range read). *)
Definition clamp_index (len : nat) (i : Z) : nat :=
  let j := if (i <? 0)%Z then (i + Z.of_nat len)%Z else i in
  Z.to_nat (Z.max 0 (Z.min j (Z.of_nat len - 1))).

Definition get (a : vec) (i : Z) : R := nth (clamp_index (length a) i) a 0.

(** [a[idx]] for an integer index array [idx]. *)
Definition take (a : vec) (idx : list Z) : vec := map (get a) idx.

(** [jnp.diff]: successive differences of a one-dimensional array. *)
Definition diff (a : vec) : vec := zip_with Rminus (tl a) a.

End Np.

(** ** Backward-difference contrasts (patsy) *)

Module Patsy.

(** Entry (i, j) of [Diff()._diff_contrast(levels)] for [n] levels: the
    library fills the upper triangle (row <= column) with
    [(j + 1 - n) / n] and the part below the diagonal with [(j + 1) / n]. *)
Definition diff_entry (n i j : nat) : R :=
  if Nat.leb i j then (INR (j + 1) - INR n) / INR n
  else INR (j + 1) / INR n.

Definition diff_row (n i : nat) : vec :=
  map (diff_entry n i) (seq 0 (n - 1)).

(** [Diff().code_without_intercept(range(0, n)).matrix], an array of shape
    (n, n - 1).  With no level the library asks numpy for a negative
    dimension, which raises. *)
Definition code_without_intercept (n : nat) : result mat :=
  match n with
  | 0%nat => Raise ValueError
  | _ => Ok (map (diff_row n) (seq 0 n))
  end.

End Patsy.

(** ** Auxiliary functions of the notebook *)

(** [periodic_rbf(x, mu, sigma)] on one position [x].  The reading is
    exact for [sigma <> 0]; at [sigma = 0] the code divides by zero and
    returns 0 or a NaN, which the real numbers do not have. *)
Definition periodic_rbf (x mu sigma : R) : R :=
  let periodic_distance := Rmin (Rabs (x - mu)) (1 - Rabs (x - mu)) in
  exp (- (periodic_distance ^ 2) / (2 * sigma ^ 2)).

(** Subtraction of each row's mean, [m - jnp.mean(m, axis=-1, keepdims=True)]. *)
Definition center_rows (m : mat) : mat :=
  map (fun row => map (fun b => b - Np.mean row) row) m.

(** [compute_doy_basis(yday_fraction, sigma, n_centers)].  Row [t] of the
    stacked array holds [periodic_rbf(yday_fraction[t], mu, sigma)] for each
    centre [mu].  With [n_centers = 0] the expression [1/(2*n_centers)]
    divides by zero. *)
Definition compute_doy_basis (yday_fraction : vec) (sigma : R) (n_centers : nat)
  : result mat :=
  match n_centers with
  | 0%nat => Raise ZeroDivisionError
  | _ =>
    let month_centers :=
      Np.linspace (1 / (2 * INR n_centers)) (1 - 1 / (2 * INR n_centers)) n_centers in
    let doy_basis :=
      map (fun x => map (fun mu => periodic_rbf x mu sigma) month_centers)
          yday_fraction in
    Ok (center_rows doy_basis)
  end.

(** ** The model [model_local_level_poisson] *)

(** One value per latent site of the model. *)
Record sites : Type := {
  log_sigma : R;
  log_state_mean : R;
  log_state_delta : vec;
  wday_coefficients : vec;
  yday_rbf_width : R;
  yday_coefficients : vec;
  log_elasticity : R
}.

(** A site declared with [sample_shape=(shape,)] holds an array of that
    shape. *)
Definition sample_shape (value : vec) (shape : nat) : result vec :=
  if Nat.eqb (length value) shape then Ok value else Raise ValueError.

Section Model.

Variable theta : sites.

(** [n_states - 1] is the shape of the innovations; with no state it is
    negative and the site cannot be declared. *)
Definition sample_random_walk (contrasts_sdif_t : mat) (n_states : nat)
  : result vec :=
  let sigma := exp (log_sigma theta) in
  match n_states with
  | 0%nat => Raise ValueError
  | S k =>
    delta <- sample_shape (log_state_delta theta) k ;;
    walk <- Np.dot contrasts_sdif_t delta ;;
    Ok (Np.shift (Np.scale walk sigma) (log_state_mean theta))
  end.

Definition sample_downsampled_random_walk (downsampling_factor : Z)
    (contrasts_sdif_t : mat) (n_obs n_states : nat) : result vec :=
  log_state_base_downsampled <- sample_random_walk contrasts_sdif_t n_states ;;
  let idx_n_weight :=
    map (fun t => INR t / IZR downsampling_factor) (seq 0 n_obs) in
  let idx_1 := map Np.floor idx_n_weight in
  let idx_2 := map Np.ceil idx_n_weight in
  let weight_2 := Np.zip_with Rminus idx_n_weight (map IZR idx_1) in
  let state_before := Np.take log_state_base_downsampled idx_1 in
  let state_after := Np.take log_state_base_downsampled idx_2 in
  Ok (Np.zip_with Rplus
        (Np.zip_with Rmult (map (fun w => 1 - w) weight_2) state_before)
        (Np.zip_with Rmult weight_2 state_after)).

Definition sample_wday_effect (contrasts_wday : mat) (wday : list Z)
  : result vec :=
  coefficients <- sample_shape (wday_coefficients theta) 6 ;;
  wday_effects <- Np.dot contrasts_wday coefficients ;;
  Ok (map (fun d => Np.get wday_effects (d - 1)) wday).

(** The basis handed in as [contrasts_yday] is overwritten by the one
    computed at the sampled width. *)
Definition sample_yday_effect (contrasts_yday : mat) (yday_fraction : vec)
  : result vec :=
  let yday_rbf_width := yday_rbf_width theta in
  contrasts_yday <- compute_doy_basis yday_fraction yday_rbf_width 12 ;;
  coefficients <- sample_shape (yday_coefficients theta) 12 ;;
  Np.dot contrasts_yday coefficients.

Definition elasticity : R := -1 * log_elasticity theta.

Definition sample_price_effect (log_price_centered : vec) : vec :=
  Np.scale log_price_centered elasticity.

(** The trend at observation resolution: the first statement of the model
    body. *)
Definition log_state_base (downsampling_factor : Z) (contrasts_sdif_t : mat)
    (n_obs n_states : nat) : result vec :=
  if Nat.eqb n_obs n_states
  then sample_random_walk contrasts_sdif_t n_states
  else sample_downsampled_random_walk downsampling_factor contrasts_sdif_t
         n_obs n_states.

(** The argument of [jnp.exp] in the site "state". *)
Definition log_rate (trend yday_effect wday_effect : vec) : result vec :=
  s <- Np.add trend yday_effect ;;
  Np.add s wday_effect.

(** The model body up to the deterministic site "state", the rate of the
    Poisson likelihood.  [price_effect] is computed and not used. *)
Definition model_local_level_poisson (sales : list nat)
    (log_price_centered : vec) (wday : list Z) (yday_fraction : vec)
    (contrasts_sdif_t contrasts_wday contrasts_yday : mat)
    (downsampling_factor : Z) : result vec :=
  let n_obs := length sales in
  let n_states := length contrasts_sdif_t in
  trend <- log_state_base downsampling_factor contrasts_sdif_t n_obs n_states ;;
  wday_effect <- sample_wday_effect contrasts_wday wday ;;
  yday_effect <- sample_yday_effect contrasts_yday yday_fraction ;;
  let price_effect := sample_price_effect log_price_centered in
  lr <- log_rate trend yday_effect wday_effect ;;
  Ok (Np.vexp lr).

End Model.

(** ** Model fitting logic: [prepare_model_arguments] *)

Record model_arguments : Type := {
  arg_sales : list nat;
  arg_log_price_centered : vec;
  arg_wday : list Z;
  arg_yday_fraction : vec;
  arg_downsampling_factor : Z;
  arg_contrasts_sdif_t : mat;
  arg_contrasts_wday : mat;
  arg_contrasts_yday : mat
}.

(** The number of knots.  [n_obs / downsampling_factor] is Python's true
    division, which raises on a zero divisor. *)
Definition n_states_of (n_obs : nat) (downsampling_factor : Z) : result Z :=
  if (downsampling_factor =? 1)%Z then Ok (Z.of_nat n_obs)
  else if (downsampling_factor =? 0)%Z then Raise ZeroDivisionError
  else Ok (Np.floor (INR n_obs / IZR downsampling_factor) + 1)%Z.

(** [range(0, n_states)] has [max(0, n_states)] elements. *)
Definition prepare_model_arguments (sales : list nat) (log_price : vec)
    (wday : list Z) (yday_fraction : vec) (downsampling_factor : Z)
  : result model_arguments :=
  let n_obs := length sales in
  n_states <- n_states_of n_obs downsampling_factor ;;
  contrasts_sdif_t <- Patsy.code_without_intercept (Z.to_nat n_states) ;;
  contrasts_wday <- Patsy.code_without_intercept 7 ;;
  contrasts_yday <- compute_doy_basis yday_fraction (30 / 365.25) 12 ;;
  let log_price_centered := Np.shift log_price (- Np.mean log_price) in
  Ok {| arg_sales := sales;
        arg_log_price_centered := log_price_centered;
        arg_wday := wday;
        arg_yday_fraction := yday_fraction;
        arg_downsampling_factor := downsampling_factor;
        arg_contrasts_sdif_t := contrasts_sdif_t;
        arg_contrasts_wday := contrasts_wday;
        arg_contrasts_yday := contrasts_yday |}.

(** The call made by the sampler: the model applied to the prepared
    arguments, keyword by keyword. *)
Definition run_model (theta : sites) (a : model_arguments) : result vec :=
  model_local_level_poisson theta (arg_sales a) (arg_log_price_centered a)
    (arg_wday a) (arg_yday_fraction a) (arg_contrasts_sdif_t a)
    (arg_contrasts_wday a) (arg_contrasts_yday a) (arg_downsampling_factor a).

(** ** Notions used in the statements *)

(** Entry [t] of the array returned by [sample_downsampled_random_walk],
    written for one observation index: weight, lower and upper knot. *)
Definition interpolate (downsampling_factor : Z) (knots : vec) (t : nat) : R :=
  let x := INR t / IZR downsampling_factor in
  let weight_2 := x - IZR (Np.floor x) in
  (1 - weight_2) * Np.get knots (Np.floor x)
  + weight_2 * Np.get knots (Np.ceil x).

(** The same site values with another value at the site "log_elasticity". *)
Definition with_log_elasticity (theta : sites) (e : R) : sites :=
  {| log_sigma := log_sigma theta;
     log_state_mean := log_state_mean theta;
     log_state_delta := log_state_delta theta;
     wday_coefficients := wday_coefficients theta;
     yday_rbf_width := yday_rbf_width theta;
     yday_coefficients := yday_coefficients theta;
     log_elasticity := e |}.

(** The argument of [jnp.exp] in the model body, from the data and the site
    values. *)
Definition model_log_rate (theta : sites) (sales : list nat) (wday : list Z)
    (yday_fraction : vec) (contrasts_sdif_t contrasts_wday contrasts_yday : mat)
    (downsampling_factor : Z) : result vec :=
  trend <- log_state_base theta downsampling_factor contrasts_sdif_t
             (length sales) (length contrasts_sdif_t) ;;
  wday_effect <- sample_wday_effect theta contrasts_wday wday ;;
  yday_effect <- sample_yday_effect theta contrasts_yday yday_fraction ;;
  log_rate trend yday_effect wday_effect.

(** Site values for a single observation: no innovation, all structured
    coefficients at zero, and a chosen baseline level. *)
Definition theta_level (level : R) : sites :=
  {| log_sigma := 0;
     log_state_mean := level;
     log_state_delta := [];
     wday_coefficients := [0; 0; 0; 0; 0; 0];
     yday_rbf_width := 1;
     yday_coefficients := [0; 0; 0; 0; 0; 0; 0; 0; 0; 0; 0; 0];
     log_elasticity := 0 |}.

(** Site values for a series on two knots. *)
Definition theta_example : sites :=
  {| log_sigma := 0;
     log_state_mean := 1;
     log_state_delta := [1];
     wday_coefficients := [0; 0; 0; 0; 0; 0];
     yday_rbf_width := 1 / 10;
     yday_coefficients := [0; 0; 0; 0; 0; 0; 0; 0; 0; 0; 0; 0];
     log_elasticity := 1 |}.

(** What [prepare_model_arguments] returns for one observation (no sale,
    log price 0, a Monday, the first day of the year) at the default factor. *)
Definition single_observation : model_arguments :=
  {| arg_sales := [0%nat];
     arg_log_price_centered := Np.shift [0] (- Np.mean [0]);
     arg_wday := [1%Z];
     arg_yday_fraction := [0];
     arg_downsampling_factor := 1;
     arg_contrasts_sdif_t := map (Patsy.diff_row 1) (seq 0 1);
     arg_contrasts_wday := map (Patsy.diff_row 7) (seq 0 7);
     arg_contrasts_yday :=
       center_rows
         (map (fun x => map (fun mu => periodic_rbf x mu (30 / 365.25))
                 (Np.linspace (1 / (2 * INR 12)) (1 - 1 / (2 * INR 12)) 12))
            [0]) |}.

(** What [prepare_model_arguments] returns for three observations at
    factor 2: two knots. *)
Definition three_observations : model_arguments :=
  {| arg_sales := [3%nat; 4%nat; 5%nat];
     arg_log_price_centered :=
       Np.shift [1; 2; 3] (- Np.mean [1; 2; 3]);
     arg_wday := [1%Z; 2%Z; 3%Z];
     arg_yday_fraction := [0; 1 / 365; 2 / 365];
     arg_downsampling_factor := 2;
     arg_contrasts_sdif_t := map (Patsy.diff_row 2) (seq 0 2);
     arg_contrasts_wday := map (Patsy.diff_row 7) (seq 0 7);
     arg_contrasts_yday :=
       center_rows
         (map (fun x => map (fun mu => periodic_rbf x mu (30 / 365.25))
                 (Np.linspace (1 / (2 * INR 12)) (1 - 1 / (2 * INR 12)) 12))
            [0; 1 / 365; 2 / 365]) |}.

(** The same site values with other seasonal coefficients. *)
Definition with_yday_coefficients (theta : sites) (coefficients : vec) : sites :=
  {| log_sigma := log_sigma theta;
     log_state_mean := log_state_mean theta;
     log_state_delta := log_state_delta theta;
     wday_coefficients := wday_coefficients theta;
     yday_rbf_width := yday_rbf_width theta;
     yday_coefficients := coefficients;
     log_elasticity := log_elasticity theta |}.

(** ** Day-of-year fraction of [read_data] *)

(** One entry of [yday / (365 + is_leap_year)]: the ordinal day of the date
    over the number of days of its year.  Reading the file and extracting
    the ordinal day and the leap-year flag from the dates are left to the
    data-frame library. *)
Definition yday_fraction_of (yday : nat) (is_leap_year : bool) : R :=
  INR yday / (365 + (if is_leap_year then 1 else 0)).

(** Equality of two explicit arrays, entry by entry. *)
Ltac array_eq :=
  repeat match goal with
         | |- Ok _ = Ok _ => apply f_equal
         | |- _ :: _ = _ :: _ => apply f_equal2
         | |- [] = [] => reflexivity
         end.

(** * Properties *)

(** ** Lists and sums *)

Section ListFacts.

Lemma zip_with_map {A : Type} (f : R -> R -> R) (g h : A -> R) (l : list A) :
  Np.zip_with f (map g l) (map h l) = map (fun x => f (g x) (h x)) l.
Proof.
  induction l as [|x l IH]; simpl; [reflexivity|].
  now rewrite IH.
Qed.

Lemma zip_with_length (f : R -> R -> R) (a b : vec) :
  length a = length b -> length (Np.zip_with f a b) = length a.
Proof.
  revert b; induction a as [|x a IH]; intros [|y b] H; simpl in *;
    try discriminate; auto.
Qed.

Lemma map_nth_seq (a : vec) :
  map (fun t => nth t a 0) (seq 0 (length a)) = a.
Proof.
  induction a as [|x a IH]; simpl; [reflexivity|].
  rewrite <- seq_shift, map_map. simpl. now rewrite IH.
Qed.

Lemma sum_app (a b : vec) : Np.sum (a ++ b) = Np.sum a + Np.sum b.
Proof.
  induction a as [|x a IH]; simpl; [lra|]. rewrite IH. lra.
Qed.

Lemma sum_map_plus {A : Type} (f g : A -> R) (l : list A) :
  Np.sum (map (fun i => f i + g i) l) = Np.sum (map f l) + Np.sum (map g l).
Proof.
  induction l as [|x l IH]; simpl; [lra|]. rewrite IH. lra.
Qed.

Lemma sum_map_scale {A : Type} (f : A -> R) (c : R) (l : list A) :
  Np.sum (map (fun i => f i * c) l) = Np.sum (map f l) * c.
Proof.
  induction l as [|x l IH]; simpl; [lra|]. rewrite IH. lra.
Qed.

Lemma sum_map_zero {A : Type} (l : list A) :
  Np.sum (map (fun _ => 0) l) = 0.
Proof.
  induction l as [|x l IH]; simpl; [reflexivity|]. rewrite IH. lra.
Qed.

Lemma sum_map_minus_const (m : R) (l : vec) :
  Np.sum (map (fun b => b - m) l) = Np.sum l - INR (length l) * m.
Proof.
  induction l as [|x l IH]; [simpl; lra|].
  change (length (x :: l)) with (S (length l)). rewrite S_INR.
  simpl. rewrite IH. lra.
Qed.

Lemma linspace_length (a b : R) (n : nat) : length (Np.linspace a b n) = n.
Proof.
  destruct n as [|[|n]]; simpl; try reflexivity.
  now rewrite length_map, length_seq.
Qed.

End ListFacts.

(** ** Centring and the value at the centre *)

Lemma centered_row_sum (row : vec) :
  row <> [] -> Np.sum (map (fun b => b - Np.mean row) row) = 0.
Proof.
  intros Hne. rewrite sum_map_minus_const. unfold Np.mean.
  assert (INR (length row) <> 0).
  { apply not_0_INR. destruct row; [congruence | discriminate]. }
  field. assumption.
Qed.



(** ** Periodic radial basis function *)






(** ** Seasonal basis matrix *)

Lemma compute_doy_basis_ok (yday : vec) (sigma : R) (n_centers : nat) :
  (1 <= n_centers)%nat ->
  compute_doy_basis yday sigma n_centers =
  Ok (center_rows
        (map (fun x => map (fun mu => periodic_rbf x mu sigma)
                (Np.linspace (1 / (2 * INR n_centers))
                   (1 - 1 / (2 * INR n_centers)) n_centers))
           yday)).
Proof.
  destruct n_centers; [lia|reflexivity].
Qed.

Lemma center_rows_spec (n : nat) (m : mat) :
  (1 <= n)%nat -> Forall (fun row => length row = n) m ->
  Forall (fun row => length row = n /\ Np.sum row = 0) (center_rows m).
Proof.
  intros Hn Hm. unfold center_rows. apply Forall_map.
  induction Hm as [|row m Hrow _ IH]; constructor; [|exact IH].
  split.
  - now rewrite length_map.
  - apply centered_row_sum. intros ->. simpl in Hrow. lia.
Qed.

Lemma doy_basis_shape (yday : vec) (sigma : R) (n_centers : nat) :
  (1 <= n_centers)%nat ->
  exists basis,
    compute_doy_basis yday sigma n_centers = Ok basis /\
    length basis = length yday /\
    Forall (fun row => length row = n_centers) basis.
Proof.
  intros Hn. rewrite compute_doy_basis_ok by assumption.
  eexists. split; [reflexivity|]. split.
  - unfold center_rows. now rewrite !length_map.
  - unfold center_rows. apply Forall_map, Forall_map, Forall_forall.
    intros x _. now rewrite !length_map, linspace_length.
Qed.

(** Claim C6.  For a positive width and day-of-year fractions in [0,1),
    whatever the number of centres, [compute_doy_basis] returns one row per
    observation, each row has one entry per centre and sums to zero; the only
    call that returns nothing is the one with no centre, which raises. *)
Theorem doy_basis_rows_sum_to_zero (yday : vec) (sigma : R) (n_centers : nat) :
  0 < sigma -> Forall (fun x => 0 <= x < 1) yday ->
  match compute_doy_basis yday sigma n_centers with
  | Ok basis =>
      length basis = length yday /\
      Forall (fun row => length row = n_centers /\ Np.sum row = 0) basis
  | Raise _ => n_centers = 0%nat
  end.
Proof.
  intros _ _. destruct n_centers as [|k]; [reflexivity|].
  rewrite compute_doy_basis_ok by lia. split.
  - unfold center_rows. now rewrite !length_map.
  - apply center_rows_spec; [lia|].
    apply Forall_map, Forall_forall. intros x _.
    now rewrite length_map, linspace_length.
Qed.

Lemma doy_basis_rows_sum_to_zero_witness :
  match compute_doy_basis [0; 1 / 2] (1 / 10) 12 with
  | Ok basis =>
      length basis = length [0; 1 / 2] /\
      Forall (fun row => length row = 12%nat /\ Np.sum row = 0) basis
  | Raise _ => 12%nat = 0%nat
  end.
Proof.
  apply (doy_basis_rows_sum_to_zero [0; 1 / 2] (1 / 10) 12).
  - lra.
  - repeat constructor; lra.
Defined.

Lemma periodic_rbf_width_sign (x mu sigma : R) :
  periodic_rbf x mu (- sigma) = periodic_rbf x mu sigma.
Proof.
  unfold periodic_rbf. f_equal. f_equal. f_equal. ring.
Qed.

(** Claim C9, as amended.  [compute_doy_basis] validates nothing: with at
    least one centre it returns a matrix for every observation vector and
    every width, the empty matrix for the empty observation vector, and for
    a width of either sign the matrix of the opposite width. *)
Theorem doy_basis_does_not_validate (yday : vec) (sigma : R) (n_centers : nat) :
  (1 <= n_centers)%nat ->
  compute_doy_basis [] sigma n_centers = Ok [] /\
  compute_doy_basis yday (- sigma) n_centers =
    compute_doy_basis yday sigma n_centers /\
  exists basis,
    compute_doy_basis yday sigma n_centers = Ok basis /\
    length basis = length yday.
Proof.
  intros Hn. rewrite !compute_doy_basis_ok by assumption.
  split; [reflexivity|]. split.
  - do 2 f_equal. apply map_ext. intros x. apply map_ext. intros mu.
    apply periodic_rbf_width_sign.
  - eexists. split; [reflexivity|].
    unfold center_rows. now rewrite !length_map.
Qed.

Lemma doy_basis_does_not_validate_witness :
  compute_doy_basis [] (-1) 12 = Ok [] /\
  compute_doy_basis [1 / 2] (- (-1)) 12 = compute_doy_basis [1 / 2] (-1) 12 /\
  exists basis,
    compute_doy_basis [1 / 2] (-1) 12 = Ok basis /\
    length basis = length [1 / 2].
Proof.
  apply (doy_basis_does_not_validate [1 / 2] (-1) 12). lia.
Defined.

(** ** Interpolation indices *)

Lemma floor_spec (x : R) (z : Z) : IZR z <= x < IZR z + 1 -> Np.floor x = z.
Proof.
  intros [Hlo Hhi]. unfold Np.floor. symmetry. apply Int_part_spec. lra.
Qed.

Lemma ceil_spec (x : R) (z : Z) : IZR z - 1 < x <= IZR z -> Np.ceil x = z.
Proof.
  intros [Hlo Hhi]. unfold Np.ceil.
  rewrite <- (Int_part_spec (- x) (- z)%Z); [lia|].
  rewrite opp_IZR. lra.
Qed.

Lemma quotient_bounds (t : nat) (c q r : Z) :
  (0 < c)%Z -> (Z.of_nat t = c * q + r)%Z ->
  INR t / IZR c = IZR q + IZR r / IZR c.
Proof.
  intros Hc Ht. rewrite INR_IZR_INZ, Ht, plus_IZR, mult_IZR.
  assert (0 < IZR c) by now apply IZR_lt.
  field. lra.
Qed.

Lemma floor_quotient (t : nat) (c : Z) :
  (0 < c)%Z -> Np.floor (INR t / IZR c) = (Z.of_nat t / c)%Z.
Proof.
  intros Hc. apply floor_spec.
  pose proof (Z.div_mod (Z.of_nat t) c ltac:(lia)) as Hdm.
  pose proof (Z.mod_pos_bound (Z.of_nat t) c Hc) as [Hr0 Hr1].
  rewrite (quotient_bounds t c _ _ Hc Hdm).
  assert (Hcp : 0 < IZR c) by now apply IZR_lt.
  apply IZR_le in Hr0. apply IZR_lt in Hr1.
  assert (0 <= IZR (Z.of_nat t mod c) / IZR c < 1).
  { split.
    - apply Rmult_le_pos; [assumption|]. left. now apply Rinv_0_lt_compat.
    - apply (Rmult_lt_reg_r (IZR c)); [assumption|].
      unfold Rdiv. rewrite Rmult_assoc, Rinv_l by lra. lra. }
  lra.
Qed.

Lemma ceil_quotient (t : nat) (c : Z) :
  (0 < c)%Z -> Np.ceil (INR t / IZR c) = ((Z.of_nat t + c - 1) / c)%Z.
Proof.
  intros Hc. apply ceil_spec.
  pose proof (Z.div_mod (Z.of_nat t + c - 1) c ltac:(lia)) as Hdm.
  pose proof (Z.mod_pos_bound (Z.of_nat t + c - 1) c Hc) as [Hr0 Hr1].
  set (q := ((Z.of_nat t + c - 1) / c)%Z) in *.
  set (r := ((Z.of_nat t + c - 1) mod c)%Z) in *.
  assert (Hcp : 0 < IZR c) by now apply IZR_lt.
  assert (Ht : INR t = IZR c * IZR q + IZR r - IZR c + 1).
  { rewrite INR_IZR_INZ. rewrite <- mult_IZR, <- plus_IZR, <- minus_IZR.
    rewrite <- (plus_IZR _ 1). f_equal. lia. }
  assert (Hx : INR t / IZR c * IZR c = INR t) by (field; lra).
  assert (Hlo : IZR r <= IZR c - 1).
  { rewrite <- minus_IZR. apply IZR_le. lia. }
  apply IZR_le in Hr0.
  split.
  - apply (Rmult_lt_reg_r (IZR c)); [assumption|]. rewrite Hx. nra.
  - apply (Rmult_le_reg_r (IZR c)); [assumption|]. rewrite Hx. nra.
Qed.

Lemma n_states_of_downsampled (n_obs : nat) (c : Z) :
  (2 <= c)%Z -> n_states_of n_obs c = Ok (Z.of_nat n_obs / c + 1)%Z.
Proof.
  intros Hc. unfold n_states_of.
  destruct (Z.eqb_spec c 1); [lia|]. destruct (Z.eqb_spec c 0); [lia|].
  now rewrite floor_quotient by lia.
Qed.

(** The lower interpolation index always addresses an existing knot. *)
Lemma floor_index_in_range (n_obs t : nat) (c : Z) :
  (2 <= c)%Z -> (t < n_obs)%nat ->
  (0 <= Np.floor (INR t / IZR c) < Z.of_nat n_obs / c + 1)%Z.
Proof.
  intros Hc Ht. rewrite floor_quotient by lia. split.
  - apply Z.div_pos; lia.
  - assert (Z.of_nat t / c <= Z.of_nat n_obs / c)%Z
      by (apply Z.div_le_mono; lia). lia.
Qed.

(** The upper interpolation index of the last observation is the knot count
    itself as soon as the observation count leaves a remainder of two or
    more. *)
Lemma ceil_index_reaches_knot_count (n_obs : nat) (c : Z) :
  (2 <= c)%Z -> (2 <= Z.of_nat n_obs mod c)%Z ->
  Np.ceil (INR (n_obs - 1) / IZR c) = (Z.of_nat n_obs / c + 1)%Z.
Proof.
  intros Hc Hr. rewrite ceil_quotient by lia.
  pose proof (Z.div_mod (Z.of_nat n_obs) c ltac:(lia)) as Hdm.
  pose proof (Z.mod_pos_bound (Z.of_nat n_obs) c ltac:(lia)) as [Hr0 Hr1].
  assert (Hn : (1 <= n_obs)%nat).
  { destruct n_obs; [|lia]. rewrite Z.mod_0_l in Hr; lia. }
  rewrite Nat2Z.inj_sub by assumption.
  symmetry. apply (Z.div_unique _ c _ (Z.of_nat n_obs mod c - 2)%Z); lia.
Qed.

(** At the default factor there are as many knots as observations. *)
Lemma n_states_of_default (n_obs : nat) :
  n_states_of n_obs 1 = Ok (Z.of_nat n_obs).
Proof. reflexivity. Qed.

(** Claim C10 fails on the code.  With 5 observations and factor 3,
    [prepare_model_arguments] makes 2 knots, and the upper interpolation index
    of the last observation ([t = 4]) is 2: it is not below the knot count.
    The read is clamped to the last knot, so the interpolated value at
    [t = 4] is the last knot itself. *)
Theorem knot_count_too_small_for_ceil_index :
  n_states_of 5 3 = Ok 2%Z /\
  Np.ceil (INR 4 / IZR 3) = 2%Z /\
  ~ (Np.ceil (INR 4 / IZR 3) < 2)%Z /\
  forall knot_0 knot_1 : R,
    Np.get [knot_0; knot_1] (Np.ceil (INR 4 / IZR 3)) = knot_1 /\
    interpolate 3 [knot_0; knot_1] 4 = knot_1.
Proof.
  assert (Hceil : Np.ceil (INR 4 / IZR 3) = 2%Z)
    by (rewrite ceil_quotient by lia; reflexivity).
  assert (Hfloor : Np.floor (INR 4 / IZR 3) = 1%Z)
    by (rewrite floor_quotient by lia; reflexivity).
  split; [now rewrite n_states_of_downsampled by lia|].
  split; [exact Hceil|]. split; [lia|].
  intros k0 k1. unfold interpolate. rewrite Hceil, Hfloor.
  split; [reflexivity|].
  change (Np.get [k0; k1] 1) with k1. change (Np.get [k0; k1] 2) with k1.
  ring.
Qed.

(** ** Degenerate input to the preparation step *)

(** The only exception on an empty series comes from the contrast library,
    at the default factor, where it is asked for zero levels. *)
Lemma prepare_empty_default_factor (log_price : vec) (wday : list Z)
    (yday_fraction : vec) :
  prepare_model_arguments [] log_price wday yday_fraction 1 = Raise ValueError.
Proof. reflexivity. Qed.

(** Claim C9 as stated fails: on the empty observation vector, and on a
    non-positive width, the basis construction returns a matrix instead of
    raising, and so does the preparation step on an empty series at
    factor 2. *)
Lemma doy_basis_accepts_degenerate_input :
  compute_doy_basis [] (30 / 365.25) 12 = Ok [] /\
  (exists basis, compute_doy_basis [1 / 2] (-1) 12 = Ok basis) /\
  (exists basis, compute_doy_basis [1 / 2] 0 12 = Ok basis) /\
  (exists a, prepare_model_arguments [] [] [] [] 2 = Ok a).
Proof.
  split; [reflexivity|]. split; [eexists; reflexivity|].
  split; [eexists; reflexivity|].
  unfold prepare_model_arguments.
  rewrite n_states_of_downsampled by lia. eexists. reflexivity.
Qed.

(** ** Trend: random walk and interpolation *)

Lemma clamp_index_in_range (len : nat) (i : nat) :
  (i < len)%nat -> Np.clamp_index len (Z.of_nat i) = i.
Proof.
  intros Hi. unfold Np.clamp_index.
  destruct (Z.ltb_spec (Z.of_nat i) 0); lia.
Qed.

Lemma get_in_range (a : vec) (i : nat) :
  (i < length a)%nat -> Np.get a (Z.of_nat i) = nth i a 0.
Proof.
  intros Hi. unfold Np.get. now rewrite clamp_index_in_range.
Qed.

Lemma nth_map_seq (f : nat -> R) (n t : nat) :
  (t < n)%nat -> nth t (map f (seq 0 n)) 0 = f t.
Proof.
  intros Ht.
  rewrite (nth_indep _ 0 (f 0%nat)) by now rewrite length_map, length_seq.
  rewrite map_nth. now rewrite seq_nth.
Qed.

Lemma dot_length (m : mat) (v x : vec) :
  Np.dot m v = Ok x -> length x = length m.
Proof.
  unfold Np.dot. destruct forallb; [|discriminate].
  intros [= <-]. apply length_map.
Qed.

Lemma sample_random_walk_length (theta : sites) (m : mat) (n_states : nat)
    (knots : vec) :
  sample_random_walk theta m n_states = Ok knots -> length knots = length m.
Proof.
  unfold sample_random_walk. destruct n_states as [|k]; [discriminate|].
  destruct (sample_shape _ k) as [delta|]; [|discriminate]. simpl.
  destruct (Np.dot m delta) as [walk|] eqn:Hdot; [|discriminate]. simpl.
  intros [= <-]. unfold Np.shift, Np.scale. rewrite !length_map.
  now apply dot_length in Hdot.
Qed.

(** The interpolation, observation by observation. *)
Lemma downsampled_walk_pointwise (theta : sites) (c : Z) (m : mat)
    (n_obs n_states : nat) :
  sample_downsampled_random_walk theta c m n_obs n_states =
  knots <- sample_random_walk theta m n_states ;;
  Ok (map (interpolate c knots) (seq 0 n_obs)).
Proof.
  unfold sample_downsampled_random_walk.
  destruct (sample_random_walk theta m n_states) as [knots|]; [|reflexivity].
  simpl. f_equal. unfold Np.take. rewrite !map_map.
  rewrite (zip_with_map Rminus), map_map.
  rewrite (zip_with_map Rmult), (zip_with_map Rmult), (zip_with_map Rplus).
  reflexivity.
Qed.

Lemma interpolate_at_knot (c : Z) (knots : vec) (k t : nat) :
  (1 <= c)%Z -> Z.of_nat t = (c * Z.of_nat k)%Z -> (k < length knots)%nat ->
  interpolate c knots t = nth k knots 0.
Proof.
  intros Hc Ht Hk. unfold interpolate.
  assert (Hcp : 0 < IZR c) by (apply IZR_lt; lia).
  assert (Hx : INR t / IZR c = IZR (Z.of_nat k)).
  { rewrite INR_IZR_INZ, Ht, mult_IZR. field. lra. }
  rewrite Hx.
  rewrite (floor_spec _ (Z.of_nat k)) by lra.
  rewrite (ceil_spec _ (Z.of_nat k)) by lra.
  rewrite get_in_range by assumption. ring.
Qed.

(** Claim C7.  When the contrast matrix has as many rows as there are
    observations, the model's trend is the random walk itself whatever the
    factor, and running the interpolation at factor 1 returns that same
    trajectory (or raises the same exception): for every value of the
    volatility, baseline and innovation sites. *)
Theorem interpolation_is_identity_at_full_resolution (theta : sites)
    (contrasts_sdif_t : mat) (downsampling_factor : Z) :
  log_state_base theta downsampling_factor contrasts_sdif_t
    (length contrasts_sdif_t) (length contrasts_sdif_t)
  = sample_random_walk theta contrasts_sdif_t (length contrasts_sdif_t)
  /\ sample_downsampled_random_walk theta 1 contrasts_sdif_t
       (length contrasts_sdif_t) (length contrasts_sdif_t)
     = sample_random_walk theta contrasts_sdif_t (length contrasts_sdif_t).
Proof.
  split.
  - unfold log_state_base. now rewrite Nat.eqb_refl.
  - rewrite downsampled_walk_pointwise.
    destruct (sample_random_walk theta contrasts_sdif_t
                (length contrasts_sdif_t)) as [knots|] eqn:Hw;
      [|reflexivity].
    simpl. f_equal.
    apply sample_random_walk_length in Hw. rewrite <- Hw.
    transitivity (map (fun t => nth t knots 0) (seq 0 (length knots)));
      [|apply map_nth_seq].
    apply map_ext_in. intros t Ht. apply in_seq in Ht.
    apply interpolate_at_knot; lia.
Qed.

(** Claim C8.  With fewer knots than observations and an integer factor
    [c >= 1], the model's trend has one value per observation, and at every
    observation index [t = c * k] within range whose knot [k] exists the
    value is exactly knot [k]. *)
Theorem interpolation_hits_knots (theta : sites) (c : Z)
    (contrasts_sdif_t : mat) (n_obs : nat) (knots : vec) (k t : nat) :
  (1 <= c)%Z -> (length contrasts_sdif_t < n_obs)%nat ->
  sample_random_walk theta contrasts_sdif_t (length contrasts_sdif_t)
    = Ok knots ->
  (k < length contrasts_sdif_t)%nat ->
  Z.of_nat t = (c * Z.of_nat k)%Z -> (t < n_obs)%nat ->
  exists trend,
    log_state_base theta c contrasts_sdif_t n_obs (length contrasts_sdif_t)
      = Ok trend /\
    length trend = n_obs /\
    nth t trend 0 = nth k knots 0.
Proof.
  intros Hc HK Hw Hk Ht Htn.
  exists (map (interpolate c knots) (seq 0 n_obs)). split; [|split].
  - unfold log_state_base.
    destruct (Nat.eqb_spec n_obs (length contrasts_sdif_t)); [lia|].
    now rewrite downsampled_walk_pointwise, Hw.
  - now rewrite length_map, length_seq.
  - rewrite nth_map_seq by assumption.
    apply interpolate_at_knot; try assumption.
    apply sample_random_walk_length in Hw. lia.
Qed.

(** With the knot count of [prepare_model_arguments], every knot-aligned
    observation index has its knot. *)
Lemma knot_aligned_index_has_knot (n_obs : nat) (c : Z) (k t : nat) :
  (2 <= c)%Z -> Z.of_nat t = (c * Z.of_nat k)%Z -> (t < n_obs)%nat ->
  (Z.of_nat k < Z.of_nat n_obs / c + 1)%Z.
Proof.
  intros Hc Ht Hn.
  assert (Z.of_nat k = Z.of_nat t / c)%Z
    by (rewrite Ht, Z.mul_comm, Z.div_mul; lia).
  assert (Z.of_nat t / c <= Z.of_nat n_obs / c)%Z
    by (apply Z.div_le_mono; lia).
  lia.
Qed.

Lemma interpolation_hits_knots_witness :
  exists knots trend,
    sample_random_walk theta_example (map (Patsy.diff_row 2) (seq 0 2)) 2
      = Ok knots /\
    log_state_base theta_example 2 (map (Patsy.diff_row 2) (seq 0 2)) 3 2
      = Ok trend /\
    length trend = 3%nat /\
    nth 2 trend 0 = nth 1 knots 0.
Proof.
  assert (Hw : { knots |
                 sample_random_walk theta_example
                   (map (Patsy.diff_row 2) (seq 0 2)) 2 = Ok knots })
    by (eexists; reflexivity).
  destruct Hw as [knots Hw]. exists knots.
  destruct (interpolation_hits_knots theta_example 2
              (map (Patsy.diff_row 2) (seq 0 2)) 3 knots 1 2)
    as [trend Htrend].
  - lia.
  - simpl. lia.
  - exact Hw.
  - simpl. lia.
  - reflexivity.
  - lia.
  - exists trend. split; [exact Hw|exact Htrend].
Defined.

(** ** Successive-difference contrasts *)

Lemma inner_cons (x y : R) (a b : vec) :
  Np.inner (x :: a) (y :: b) = x * y + Np.inner a b.
Proof. reflexivity. Qed.

Lemma diff_entry_step (n i j : nat) :
  (1 <= n)%nat ->
  Patsy.diff_entry n (S i) j - Patsy.diff_entry n i j
  = if Nat.eqb j i then 1 else 0.
Proof.
  intros Hn. unfold Patsy.diff_entry.
  assert (Hnz : INR n <> 0) by (apply not_0_INR; lia).
  destruct (Nat.eqb_spec j i) as [->|Hne].
  - destruct (Nat.leb_spec (S i) i); [lia|].
    destruct (Nat.leb_spec i i); [|lia]. field. assumption.
  - destruct (Nat.leb_spec (S i) j), (Nat.leb_spec i j); try lia; lra.
Qed.

(** Two consecutive rows of the contrast matrix differ in one column only,
    the one on the diagonal, and by one there. *)
Lemma consecutive_rows_inner (n i : nat) (v : vec) (s : nat) :
  (1 <= n)%nat ->
  Np.inner (map (Patsy.diff_entry n (S i)) (seq s (length v))) v
  - Np.inner (map (Patsy.diff_entry n i) (seq s (length v))) v
  = if Nat.leb s i then nth (i - s) v 0 else 0.
Proof.
  intros Hn. revert s. induction v as [|x v IH]; intros s.
  - simpl. unfold Np.inner. simpl.
    destruct (Nat.leb s i); [destruct (i - s)%nat|]; lra.
  - simpl length. simpl seq. simpl map. rewrite !inner_cons.
    pose proof (diff_entry_step n i s Hn) as Hstep.
    pose proof (IH (S s)) as IHs.
    destruct (Nat.eqb_spec s i) as [Heq|Hne].
    + destruct (Nat.leb_spec (S s) i); [lia|].
      destruct (Nat.leb_spec s i); [|lia].
      replace (i - s)%nat with 0%nat by lia. simpl nth. nra.
    + destruct (Nat.leb_spec (S s) i), (Nat.leb_spec s i); try lia.
      * replace (i - s)%nat with (S (i - S s)) by lia. simpl nth. nra.
      * nra.
Qed.

Lemma diff_map_seq (f : nat -> R) (n : nat) :
  Np.diff (map f (seq 0 (S n))) = map (fun i => f (S i) - f i) (seq 0 n).
Proof.
  unfold Np.diff. simpl tl.
  rewrite <- seq_shift, map_map.
  change (f 0%nat :: map f (seq 1 n)) with (map f (seq 0 (S n))).
  rewrite seq_S, map_app. simpl.
  generalize (seq 0 n) as l. induction l as [|a l IHl]; simpl; [reflexivity|].
  now rewrite IHl.
Qed.

(** Each column of the contrast matrix sums to zero. *)
Lemma sum_step_function (j : nat) (a b : R) (k : nat) :
  Np.sum (map (fun i => if Nat.leb i j then a else b) (seq 0 k))
  = INR (Nat.min k (S j)) * a + INR (k - S j) * b.
Proof.
  induction k as [|k IH]; [simpl; lra|].
  rewrite seq_S, map_app, sum_app, IH. simpl map. simpl Np.sum.
  destruct (Nat.leb_spec k j).
  - replace (Nat.min (S k) (S j)) with (S (Nat.min k (S j))) by lia.
    replace (S k - S j)%nat with 0%nat by lia.
    replace (k - S j)%nat with 0%nat by lia.
    rewrite S_INR. simpl INR. lra.
  - replace (Nat.min (S k) (S j)) with (Nat.min k (S j)) by lia.
    replace (S k - S j)%nat with (S (k - S j)) by lia.
    rewrite S_INR. lra.
Qed.

Lemma diff_column_sum (n j : nat) :
  (S j < n)%nat ->
  Np.sum (map (fun i => Patsy.diff_entry n i j) (seq 0 n)) = 0.
Proof.
  intros Hj. unfold Patsy.diff_entry. rewrite sum_step_function.
  replace (Nat.min n (S j)) with (S j) by lia.
  rewrite minus_INR by lia.
  replace (j + 1)%nat with (S j) by lia.
  assert (Hnz : INR n <> 0) by (apply not_0_INR; lia).
  field. assumption.
Qed.

Lemma trajectory_sum (n : nat) (v : vec) (s : nat) :
  (s + length v < n)%nat ->
  Np.sum (map (fun i => Np.inner (map (Patsy.diff_entry n i) (seq s (length v))) v)
            (seq 0 n)) = 0.
Proof.
  revert s. induction v as [|x v IH]; intros s Hs.
  - simpl. apply sum_map_zero.
  - simpl length. simpl seq. simpl map.
    rewrite (map_ext _ (fun i => Patsy.diff_entry n i s * x
               + Np.inner (map (Patsy.diff_entry n i) (seq (S s) (length v))) v))
      by (intros i; apply inner_cons).
    rewrite sum_map_plus, sum_map_scale, IH by (simpl in Hs; lia).
    rewrite diff_column_sum by (simpl in Hs; lia). lra.
Qed.

Lemma dot_rows_ok (m : mat) (v : vec) :
  Forall (fun row => length row = length v) m ->
  Np.dot m v = Ok (map (fun row => Np.inner row v) m).
Proof.
  intros H. unfold Np.dot.
  replace (forallb _ m) with true; [reflexivity|].
  symmetry. apply forallb_forall. intros row Hin.
  rewrite Forall_forall in H. apply Nat.eqb_eq. now apply H.
Qed.

Lemma diff_rows_shape (n : nat) :
  Forall (fun row => length row = (n - 1)%nat) (map (Patsy.diff_row n) (seq 0 n)).
Proof.
  apply Forall_map, Forall_forall. intros i _.
  unfold Patsy.diff_row. now rewrite length_map, length_seq.
Qed.

(** Claim C2, as amended.  For [n >= 2] levels the contrast matrix is
    [n x (n-1)], and for every innovation vector [v] of length [n - 1] the
    successive differences of the trajectory [M.v] equal [v] exactly, and the
    entries of the trajectory sum to zero (the trajectory is centred; its
    first value is not pinned to zero). *)
Theorem diff_contrasts_reconstruct_innovations (n : nat) (v : vec) :
  (2 <= n)%nat -> length v = (n - 1)%nat ->
  exists M trajectory,
    Patsy.code_without_intercept n = Ok M /\
    length M = n /\ Forall (fun row => length row = (n - 1)%nat) M /\
    Np.dot M v = Ok trajectory /\
    length trajectory = n /\
    Np.diff trajectory = v /\
    Np.sum trajectory = 0.
Proof.
  intros Hn Hv.
  exists (map (Patsy.diff_row n) (seq 0 n)).
  exists (map (fun i => Np.inner (Patsy.diff_row n i) v) (seq 0 n)).
  split; [destruct n; [lia|reflexivity]|].
  split; [now rewrite length_map, length_seq|].
  split; [apply diff_rows_shape|].
  split.
  { rewrite dot_rows_ok by (rewrite Hv; apply diff_rows_shape).
    now rewrite map_map. }
  split; [now rewrite length_map, length_seq|].
  unfold Patsy.diff_row. rewrite <- Hv. split.
  - replace n with (S (length v)) at 1 by lia.
    rewrite diff_map_seq.
    transitivity (map (fun t => nth t v 0) (seq 0 (length v)));
      [|apply map_nth_seq].
    apply map_ext. intros i.
    rewrite consecutive_rows_inner by lia. simpl. now rewrite Nat.sub_0_r.
  - apply trajectory_sum. lia.
Qed.

Lemma diff_contrasts_reconstruct_innovations_witness :
  exists M trajectory,
    Patsy.code_without_intercept 3 = Ok M /\
    length M = 3%nat /\ Forall (fun row => length row = (3 - 1)%nat) M /\
    Np.dot M [1; 2] = Ok trajectory /\
    length trajectory = 3%nat /\
    Np.diff trajectory = [1; 2] /\
    Np.sum trajectory = 0.
Proof.
  apply (diff_contrasts_reconstruct_innovations 3 [1; 2]).
  - lia.
  - reflexivity.
Defined.

(** The matrix for four levels, as the contrast library's own test states
    it. *)
Example diff_contrasts_four_levels :
  Patsy.code_without_intercept 4 =
  Ok [[- 3 / 4; - 1 / 2; - 1 / 4];
      [1 / 4; - 1 / 2; - 1 / 4];
      [1 / 4; 1 / 2; - 1 / 4];
      [1 / 4; 1 / 2; 3 / 4]].
Proof.
  unfold Patsy.code_without_intercept, Patsy.diff_row, Patsy.diff_entry.
  simpl. array_eq; lra.
Qed.

(** Claim C2 as stated fails: for two levels and the innovation vector [1]
    the trajectory is [-1/2; 1/2]; its increment is the innovation, and its
    first value is not zero. *)
Lemma diff_contrasts_first_value_not_zero :
  exists M trajectory,
    Patsy.code_without_intercept 2 = Ok M /\
    Np.dot M [1] = Ok trajectory /\
    trajectory = [- (1 / 2); 1 / 2] /\
    nth 0 trajectory 0 <> 0.
Proof.
  exists [[- (1 / 2)]; [1 / 2]], [- (1 / 2); 1 / 2].
  split; [|split; [|split]].
  - unfold Patsy.code_without_intercept, Patsy.diff_row, Patsy.diff_entry.
    simpl. array_eq; lra.
  - unfold Np.dot, Np.inner. simpl. array_eq; lra.
  - reflexivity.
  - simpl. lra.
Qed.

(** ** Emission rate *)

Lemma add_same_length (a b : vec) :
  length a = length b -> Np.add a b = Ok (Np.zip_with Rplus a b).
Proof.
  intros H. unfold Np.add. now rewrite H, Nat.eqb_refl.
Qed.

Lemma zip_with_pointwise (f : R -> R -> R) (a b : vec) :
  length a = length b ->
  Np.zip_with f a b
  = map (fun t => f (nth t a 0) (nth t b 0)) (seq 0 (length a)).
Proof.
  intros H. rewrite <- (zip_with_map f (fun t => nth t a 0) (fun t => nth t b 0)).
  rewrite map_nth_seq, H. now rewrite map_nth_seq.
Qed.

Lemma log_rate_pointwise (trend yday_effect wday_effect : vec) :
  length yday_effect = length trend -> length wday_effect = length trend ->
  log_rate trend yday_effect wday_effect
  = Ok (map (fun t => nth t trend 0 + nth t yday_effect 0 + nth t wday_effect 0)
          (seq 0 (length trend))).
Proof.
  intros Hy Hw. unfold log_rate.
  rewrite add_same_length by congruence. simpl.
  assert (Hl : length (Np.zip_with Rplus trend yday_effect) = length trend)
    by (apply zip_with_length; congruence).
  rewrite add_same_length by congruence. f_equal.
  rewrite zip_with_pointwise, Hl by congruence.
  apply map_ext_in. intros t Ht. apply in_seq in Ht.
  rewrite zip_with_pointwise by congruence.
  now rewrite nth_map_seq by lia.
Qed.

Lemma log_state_base_length (theta : sites) (c : Z) (m : mat) (n_obs : nat)
    (trend : vec) :
  log_state_base theta c m n_obs (length m) = Ok trend -> length trend = n_obs.
Proof.
  unfold log_state_base. destruct (Nat.eqb_spec n_obs (length m)) as [->|Hne].
  - apply sample_random_walk_length.
  - rewrite downsampled_walk_pointwise.
    destruct sample_random_walk; [|discriminate]. simpl.
    intros [= <-]. now rewrite length_map, length_seq.
Qed.

Lemma sample_wday_effect_length (theta : sites) (m : mat) (wday : list Z)
    (w : vec) :
  sample_wday_effect theta m wday = Ok w -> length w = length wday.
Proof.
  unfold sample_wday_effect.
  destruct sample_shape; [|discriminate]. simpl.
  destruct Np.dot; [|discriminate]. simpl.
  intros [= <-]. apply length_map.
Qed.

Lemma sample_yday_effect_length (theta : sites) (m : mat) (yday : vec)
    (y : vec) :
  sample_yday_effect theta m yday = Ok y -> length y = length yday.
Proof.
  unfold sample_yday_effect.
  rewrite compute_doy_basis_ok by lia. simpl.
  destruct sample_shape; [|discriminate]. simpl.
  intros H. apply dot_length in H. rewrite H.
  unfold center_rows. now rewrite !length_map.
Qed.

Lemma model_factors_through_log_rate (theta : sites) (sales : list nat)
    (log_price_centered : vec) (wday : list Z) (yday_fraction : vec)
    (contrasts_sdif_t contrasts_wday contrasts_yday : mat) (c : Z) :
  model_local_level_poisson theta sales log_price_centered wday yday_fraction
    contrasts_sdif_t contrasts_wday contrasts_yday c
  = lr <- model_log_rate theta sales wday yday_fraction contrasts_sdif_t
            contrasts_wday contrasts_yday c ;;
    Ok (Np.vexp lr).
Proof.
  unfold model_local_level_poisson, model_log_rate.
  destruct log_state_base; [|reflexivity]. simpl.
  destruct sample_wday_effect; [|reflexivity]. simpl.
  destruct sample_yday_effect; reflexivity.
Qed.

(** Claim C1.  The rate of the Poisson likelihood is the elementwise
    exponential of the model's log-rate, which is built from the trend, the
    day-of-year effect and the weekday effect only: another value at the site
    "log_elasticity" and another centred log price give the same rate (or the
    same exception), and when the calendar columns are as long as the sales
    column the rate at observation [t] is
    [exp (trend[t] + yday_effect[t] + wday_effect[t])]. *)
Theorem rate_ignores_price_effect (theta : sites) (sales : list nat)
    (log_price_centered : vec) (wday : list Z) (yday_fraction : vec)
    (contrasts_sdif_t contrasts_wday contrasts_yday : mat) (c : Z) :
  (forall (e : R) (log_price_centered' : vec),
      model_local_level_poisson (with_log_elasticity theta e) sales
        log_price_centered' wday yday_fraction
        contrasts_sdif_t contrasts_wday contrasts_yday c
      = model_local_level_poisson theta sales log_price_centered wday
          yday_fraction contrasts_sdif_t contrasts_wday contrasts_yday c)
  /\
  (forall trend wday_effect yday_effect : vec,
      log_state_base theta c contrasts_sdif_t (length sales)
        (length contrasts_sdif_t) = Ok trend ->
      sample_wday_effect theta contrasts_wday wday = Ok wday_effect ->
      sample_yday_effect theta contrasts_yday yday_fraction = Ok yday_effect ->
      length wday = length sales -> length yday_fraction = length sales ->
      model_local_level_poisson theta sales log_price_centered wday
        yday_fraction contrasts_sdif_t contrasts_wday contrasts_yday c
      = Ok (map (fun t => exp (nth t trend 0 + nth t yday_effect 0
                               + nth t wday_effect 0))
              (seq 0 (length sales)))).
Proof.
  split.
  - intros e lpc'. reflexivity.
  - intros trend w y Ht Hw Hy Hlw Hly.
    rewrite model_factors_through_log_rate. unfold model_log_rate.
    rewrite Ht, Hw, Hy. simpl.
    apply log_state_base_length in Ht.
    apply sample_wday_effect_length in Hw.
    apply sample_yday_effect_length in Hy.
    rewrite log_rate_pointwise by congruence. simpl.
    unfold Np.vexp. now rewrite map_map, Ht.
Qed.

(** Claim C3 fails on the code.  The site "elasticity" is the opposite of the
    raw site "log_elasticity": at the raw value 1 it is negative and at the
    raw value -1 it is positive, so it takes both signs. *)
Theorem elasticity_takes_both_signs :
  (forall theta : sites, elasticity theta = - log_elasticity theta) /\
  elasticity (with_log_elasticity theta_example 1) = -1 /\
  elasticity (with_log_elasticity theta_example (-1)) = 1.
Proof.
  unfold elasticity. simpl. repeat split; intros; lra.
Qed.

Lemma inner_zeros (row : vec) (k : nat) : Np.inner row (repeat 0 k) = 0.
Proof.
  revert k. induction row as [|x row IH]; intros [|k]; try reflexivity.
  simpl repeat. rewrite inner_cons, IH. lra.
Qed.

Lemma get_zeros {A : Type} (l : list A) (i : Z) :
  Np.get (map (fun _ => 0) l) i = 0.
Proof.
  unfold Np.get.
  destruct (nth_in_or_default (Np.clamp_index (length (map (fun _ : A => 0) l)) i)
              (map (fun _ : A => 0) l) 0) as [Hin|Hd]; [|exact Hd].
  apply in_map_iff in Hin. now destruct Hin as [_ [H _]].
Qed.

Lemma dot_zeros (m : mat) (k : nat) :
  Forall (fun row => length row = k) m ->
  Np.dot m (repeat 0 k) = Ok (map (fun _ => 0) m).
Proof.
  intros H. rewrite dot_rows_ok by now rewrite repeat_length.
  f_equal. apply map_ext. intros row. apply inner_zeros.
Qed.

Lemma sample_shape_zeros (k : nat) :
  sample_shape (repeat 0 k) k = Ok (repeat 0 k).
Proof.
  unfold sample_shape. now rewrite repeat_length, Nat.eqb_refl.
Qed.

Lemma wday_effect_zero (theta : sites) (m : mat) (wday : list Z) :
  wday_coefficients theta = repeat 0 6 ->
  Forall (fun row => length row = 6%nat) m ->
  sample_wday_effect theta m wday = Ok (map (fun _ => 0) wday).
Proof.
  intros Hc Hm. unfold sample_wday_effect.
  rewrite Hc, sample_shape_zeros. cbv beta iota delta [bind].
  rewrite dot_zeros by assumption.
  f_equal. apply map_ext. intros d. apply get_zeros.
Qed.

Lemma yday_effect_zero (theta : sites) (m : mat) (yday : vec) :
  yday_coefficients theta = repeat 0 12 ->
  sample_yday_effect theta m yday = Ok (map (fun _ => 0) yday).
Proof.
  intros Hc. unfold sample_yday_effect.
  pose proof (doy_basis_shape yday (yday_rbf_width theta) 12 ltac:(lia))
    as [basis [Hb [Hlen Hrows]]].
  rewrite Hb, Hc, sample_shape_zeros. cbv beta iota delta [bind].
  rewrite dot_zeros by assumption.
  f_equal. clear Hb Hrows. revert yday Hlen.
  induction basis as [|r basis IH]; intros [|x yday] Hlen; simpl in *;
    try discriminate; [reflexivity|]. f_equal. apply IH. lia.
Qed.

(** One observation, prepared by [prepare_model_arguments] at the default
    factor, evaluated at [theta_level level]. *)
Lemma single_observation_prepared :
  prepare_model_arguments [0%nat] [0] [1%Z] [0] 1 = Ok single_observation.
Proof. reflexivity. Qed.

Lemma single_observation_rate (level : R) :
  run_model (theta_level level) single_observation
  = Ok [exp (0 * exp 0 + level + 0 + 0)].
Proof.
  unfold run_model, single_observation.
  cbv beta iota delta [arg_sales arg_log_price_centered
    arg_wday arg_yday_fraction arg_contrasts_sdif_t arg_contrasts_wday
    arg_contrasts_yday arg_downsampling_factor].
  rewrite model_factors_through_log_rate. unfold model_log_rate.
  rewrite wday_effect_zero;
    [|reflexivity|apply (diff_rows_shape 7)].
  rewrite yday_effect_zero by reflexivity.
  reflexivity.
Qed.

Lemma exp_above (x : R) : x < exp x.
Proof.
  pose proof (exp_ineq1_le x). lra.
Qed.

Lemma exp_above_power_of_two (n : nat) : 2 ^ n <= exp (INR n).
Proof.
  induction n as [|n IH]; [simpl; rewrite exp_0; lra|].
  rewrite S_INR, exp_plus. simpl pow.
  pose proof (exp_ineq1_le 1). pose proof (exp_pos (INR n)).
  assert (0 < 2 ^ n) by (apply pow_lt; lra). nra.
Qed.

(** Claim C4, as amended.  The rate is the elementwise exponential of the
    model's log-rate with no overflow guard: the model applies [jnp.exp] to
    the log-rate and nothing else, so no ceiling bounds the rate.  For every
    candidate ceiling the series of one observation prepared by
    [prepare_model_arguments] has, at some baseline level, a rate above it;
    at the baseline level 1024 the exact rate is at least [2^1024], beyond
    every finite floating-point number of the notebook's arithmetic, so the
    rate is not kept finite. *)
Theorem rate_is_unclipped_exponential :
  (forall (theta : sites) (a : model_arguments),
      run_model theta a
      = (lr <- model_log_rate theta (arg_sales a) (arg_wday a)
                 (arg_yday_fraction a) (arg_contrasts_sdif_t a)
                 (arg_contrasts_wday a) (arg_contrasts_yday a)
                 (arg_downsampling_factor a) ;;
         Ok (Np.vexp lr)))
  /\ prepare_model_arguments [0%nat] [0] [1%Z] [0] 1 = Ok single_observation
  /\ (forall ceiling : R,
        exists (theta : sites) (rate : vec),
          run_model theta single_observation = Ok rate /\
          Exists (fun r => ceiling < r) rate)
  /\ (exists rate : vec,
        run_model (theta_level 1024) single_observation = Ok rate /\
        Exists (fun r => 2 ^ 1024 <= r) rate).
Proof.
  split; [|split; [|split]].
  - intros theta a. unfold run_model. apply model_factors_through_log_rate.
  - exact single_observation_prepared.
  - intros ceiling. exists (theta_level ceiling). eexists.
    split; [apply single_observation_rate|].
    constructor. pose proof (exp_above (0 * exp 0 + ceiling + 0 + 0)). lra.
  - eexists. split; [apply single_observation_rate|].
    constructor.
    replace (0 * exp 0 + 1024 + 0 + 0) with (INR 1024)
      by (rewrite INR_IZR_INZ; simpl Z.of_nat; ring).
    apply exp_above_power_of_two.
Qed.

(** Claim C4 as stated fails: no ceiling bounds the rate.  Whatever the
    candidate ceiling, the series of one observation prepared by
    [prepare_model_arguments], at a baseline level equal to that ceiling, has
    a rate above it. *)
Lemma rate_has_no_ceiling :
  ~ exists ceiling : R,
      forall (theta : sites) (sales : list nat) (log_price : vec)
             (wday : list Z) (yday_fraction : vec) (c : Z)
             (a : model_arguments) (rate : vec),
        prepare_model_arguments sales log_price wday yday_fraction c = Ok a ->
        run_model theta a = Ok rate ->
        Forall (fun r => r <= ceiling) rate.
Proof.
  intros [ceiling H].
  specialize (H (theta_level ceiling) _ _ _ _ _ _ _
                single_observation_prepared (single_observation_rate ceiling)).
  inversion H as [|r l Hr _]; subst.
  pose proof (exp_above (0 * exp 0 + ceiling + 0 + 0)). lra.
Qed.

Lemma three_observations_prepared :
  prepare_model_arguments [3%nat; 4%nat; 5%nat] [1; 2; 3] [1%Z; 2%Z; 3%Z]
    [0; 1 / 365; 2 / 365] 2 = Ok three_observations.
Proof.
  unfold prepare_model_arguments.
  rewrite n_states_of_downsampled by lia. reflexivity.
Qed.

Lemma rate_ignores_price_effect_witness :
  exists trend wday_effect yday_effect : vec,
    log_state_base theta_example 2 (arg_contrasts_sdif_t three_observations)
      3 2 = Ok trend /\
    sample_wday_effect theta_example (arg_contrasts_wday three_observations)
      (arg_wday three_observations) = Ok wday_effect /\
    sample_yday_effect theta_example (arg_contrasts_yday three_observations)
      (arg_yday_fraction three_observations) = Ok yday_effect /\
    run_model theta_example three_observations
    = Ok (map (fun t => exp (nth t trend 0 + nth t yday_effect 0
                             + nth t wday_effect 0))
            (seq 0 3)).
Proof.
  pose proof (wday_effect_zero theta_example
                (arg_contrasts_wday three_observations)
                (arg_wday three_observations) eq_refl (diff_rows_shape 7))
    as Hw.
  pose proof (yday_effect_zero theta_example
                (arg_contrasts_yday three_observations)
                (arg_yday_fraction three_observations) eq_refl) as Hy.
  assert (Ht : { trend |
                 log_state_base theta_example 2
                   (arg_contrasts_sdif_t three_observations) 3 2 = Ok trend })
    by (eexists; reflexivity).
  destruct Ht as [trend Ht].
  exists trend, (map (fun _ => 0) (arg_wday three_observations)),
    (map (fun _ => 0) (arg_yday_fraction three_observations)).
  split; [exact Ht|]. split; [exact Hw|]. split; [exact Hy|].
  exact (proj2 (rate_ignores_price_effect theta_example
                  (arg_sales three_observations)
                  (arg_log_price_centered three_observations)
                  (arg_wday three_observations)
                  (arg_yday_fraction three_observations)
                  (arg_contrasts_sdif_t three_observations)
                  (arg_contrasts_wday three_observations)
                  (arg_contrasts_yday three_observations) 2)
           trend _ _ Ht Hw Hy eq_refl eq_refl).
Defined.

(** * Further properties of the notebook's functions *)

(** ** Range of the radial basis function *)

Lemma exp_le_mono (x y : R) : x <= y -> exp x <= exp y.
Proof.
  intros [Hlt | Heq]; [left; now apply exp_increasing|right; now rewrite Heq].
Qed.

Lemma rbf_exponent_nonpos (d sigma : R) :
  sigma <> 0 -> - d ^ 2 / (2 * sigma ^ 2) <= 0.
Proof.
  intros Hs.
  assert (Hp : 0 < 2 * sigma ^ 2) by (assert (0 < sigma ^ 2) by nra; lra).
  assert (Hd : 0 <= d ^ 2) by nra.
  unfold Rdiv. apply Rinv_0_lt_compat in Hp. nra.
Qed.

Lemma periodic_rbf_in_unit (x mu sigma : R) :
  sigma <> 0 -> 0 < periodic_rbf x mu sigma <= 1.
Proof.
  intros Hs. unfold periodic_rbf. split; [apply exp_pos|].
  rewrite <- exp_0. apply exp_le_mono. now apply rbf_exponent_nonpos.
Qed.

(** Extra X1.  For a non-zero width the radial basis function takes its
    values in the unit interval [0, 1], whatever the position and the
    centre: it never exceeds the value 1 it has at the centre and is never
    negative. *)
Theorem periodic_rbf_range (x mu sigma : R) :
  sigma <> 0 -> 0 <= periodic_rbf x mu sigma <= 1.
Proof.
  intros Hs. destruct (periodic_rbf_in_unit x mu sigma Hs). lra.
Qed.

Lemma periodic_rbf_range_witness : 0 <= periodic_rbf (1 / 3) (1 / 24) (-2) <= 1.
Proof.
  apply (periodic_rbf_range (1 / 3) (1 / 24) (-2)). lra.
Defined.

(** ** Centres of the seasonal basis *)

Lemma nth_map_seq_default (f : nat -> R) (n i : nat) (d : R) :
  (i < n)%nat -> nth i (map f (seq 0 n)) d = f i.
Proof.
  intros Hi.
  rewrite (nth_indep _ d (f 0%nat)) by now rewrite length_map, length_seq.
  rewrite map_nth. now rewrite seq_nth.
Qed.

Lemma month_center_value (n_centers i : nat) :
  (i < n_centers)%nat ->
  nth i (Np.linspace (1 / (2 * INR n_centers)) (1 - 1 / (2 * INR n_centers))
           n_centers) 0
  = (2 * INR i + 1) / (2 * INR n_centers).
Proof.
  intros Hi. destruct n_centers as [|[|k]]; [lia| |].
  - replace i with 0%nat by lia. simpl. lra.
  - unfold Np.linspace. rewrite nth_map_seq_default by assumption.
    replace (S (S k) - 1)%nat with (S k) by lia.
    rewrite !S_INR. pose proof (pos_INR k). field. lra.
Qed.

(** Extra X3.  The centres that [compute_doy_basis] places are the mid-points
    of [n_centers] equal bins of the year: centre [i] is
    [(2 i + 1) / (2 n_centers)]. *)
Theorem month_centers_are_bin_midpoints (n_centers i : nat) :
  (i < n_centers)%nat ->
  nth i (Np.linspace (1 / (2 * INR n_centers)) (1 - 1 / (2 * INR n_centers))
           n_centers) 0
  = (2 * INR i + 1) / (2 * INR n_centers).
Proof. apply month_center_value. Qed.

Lemma month_centers_are_bin_midpoints_witness :
  nth 11 (Np.linspace (1 / (2 * INR 12)) (1 - 1 / (2 * INR 12)) 12) 0
  = (2 * INR 11 + 1) / (2 * INR 12).
Proof.
  apply (month_centers_are_bin_midpoints 12 11). lia.
Defined.

Lemma month_centers_in_unit_interval (n_centers : nat) :
  Forall (fun mu => 0 <= mu <= 1)
    (Np.linspace (1 / (2 * INR n_centers)) (1 - 1 / (2 * INR n_centers))
       n_centers).
Proof.
  apply Forall_forall. intros mu Hin.
  apply (In_nth _ _ 0) in Hin. destruct Hin as [i [Hi <-]].
  rewrite linspace_length in Hi.
  rewrite month_center_value by assumption.
  assert (Hn : 0 < INR n_centers) by (apply lt_0_INR; lia).
  assert (Hin : INR i + 1 <= INR n_centers)
    by (rewrite <- S_INR; apply le_INR; lia).
  pose proof (pos_INR i).
  split.
  - apply Rmult_le_pos; [lra|]. left. apply Rinv_0_lt_compat. lra.
  - apply (Rmult_le_reg_r (2 * INR n_centers)); [lra|].
    unfold Rdiv. rewrite Rmult_assoc, Rinv_l by lra. lra.
Qed.

(** ** The seasonal basis across the year boundary and at one centre *)

Lemma periodic_rbf_boundary (mu sigma : R) :
  0 <= mu <= 1 -> periodic_rbf 1 mu sigma = periodic_rbf 0 mu sigma.
Proof.
  intros Hmu. unfold periodic_rbf.
  rewrite (Rabs_pos_eq (1 - mu)) by lra.
  rewrite (Rabs_left1 (0 - mu)) by lra.
  replace (1 - (1 - mu)) with (- (0 - mu)) by ring.
  replace (1 - - (0 - mu)) with (1 - mu) by ring.
  now rewrite Rmin_comm.
Qed.

(** Extra X4.  A day-of-year fraction of exactly 1 (the last day of a year)
    gets the same basis row as the fraction 0: replacing one by the other in
    the observation vector does not change what [compute_doy_basis]
    returns. *)
Theorem doy_basis_wraps_at_year_end (before after : vec) (sigma : R)
    (n_centers : nat) :
  compute_doy_basis (before ++ 1 :: after) sigma n_centers
  = compute_doy_basis (before ++ 0 :: after) sigma n_centers.
Proof.
  destruct n_centers as [|k]; [reflexivity|].
  rewrite !compute_doy_basis_ok by lia. f_equal. f_equal.
  rewrite !map_app. f_equal. simpl. f_equal.
  apply map_ext_in. intros mu Hmu.
  apply periodic_rbf_boundary.
  pose proof (month_centers_in_unit_interval (S k)) as Hall.
  rewrite Forall_forall in Hall. now apply Hall.
Qed.

(** Extra X5.  With a single centre and a non-zero width the centred basis
    vanishes: every row of [compute_doy_basis yday sigma 1] is the one-entry
    row [0], since the only entry is its own row mean. *)
Theorem doy_basis_single_centre_is_zero (yday : vec) (sigma : R) :
  sigma <> 0 ->
  compute_doy_basis yday sigma 1 = Ok (map (fun _ => [0]) yday).
Proof.
  intros _. rewrite compute_doy_basis_ok by lia. f_equal.
  unfold center_rows. rewrite map_map. apply map_ext. intros x.
  simpl. f_equal. unfold Np.mean. simpl. field.
Qed.

Lemma doy_basis_single_centre_is_zero_witness :
  compute_doy_basis [0; 1 / 2] (30 / 365.25) 1
  = Ok (map (fun _ => [0]) [0; 1 / 2]).
Proof.
  apply (doy_basis_single_centre_is_zero [0; 1 / 2] (30 / 365.25)). lra.
Defined.

Lemma sum_unit_bounds (row : vec) :
  Forall (fun b => 0 < b <= 1) row ->
  0 <= Np.sum row <= INR (length row) /\ (row <> [] -> 0 < Np.sum row).
Proof.
  induction 1 as [|b row Hb _ [IH _]].
  - simpl. split; [lra|congruence].
  - change (length (b :: row)) with (S (length row)). rewrite S_INR.
    simpl. split; [lra|]. intros _. lra.
Qed.

Lemma mean_unit_bounds (row : vec) :
  row <> [] -> Forall (fun b => 0 < b <= 1) row -> 0 < Np.mean row <= 1.
Proof.
  intros Hne Hall. destruct (sum_unit_bounds row Hall) as [[_ Hhi] Hlo].
  specialize (Hlo Hne). unfold Np.mean.
  assert (Hn : 0 < INR (length row)).
  { apply lt_0_INR. destruct row; [congruence|simpl; lia]. }
  split.
  - apply Rmult_lt_0_compat; [assumption|now apply Rinv_0_lt_compat].
  - apply (Rmult_le_reg_r (INR (length row))); [assumption|].
    unfold Rdiv. rewrite Rmult_assoc, Rinv_l by lra. lra.
Qed.

(** Extra X6.  For a non-zero width every entry of the centred seasonal
    basis lies strictly between -1 and 1: it is a value in (0,1] minus a row
    mean in (0,1].  The call raises only without a centre. *)
Theorem doy_basis_entries_bounded (yday : vec) (sigma : R) (n_centers : nat) :
  sigma <> 0 ->
  match compute_doy_basis yday sigma n_centers with
  | Ok basis => Forall (Forall (fun b => -1 < b < 1)) basis
  | Raise _ => n_centers = 0%nat
  end.
Proof.
  intros Hs. destruct n_centers as [|k]; [reflexivity|].
  rewrite compute_doy_basis_ok by lia.
  unfold center_rows. apply Forall_map, Forall_map, Forall_forall.
  intros x _.
  set (row := map (fun mu => periodic_rbf x mu sigma) _).
  assert (Hrow : Forall (fun b => 0 < b <= 1) row).
  { apply Forall_map, Forall_forall. intros mu _.
    now apply periodic_rbf_in_unit. }
  assert (Hne : row <> []).
  { intros Heq. apply (f_equal (@length R)) in Heq.
    unfold row in Heq. rewrite length_map, linspace_length in Heq.
    discriminate. }
  pose proof (mean_unit_bounds row Hne Hrow) as Hmean.
  apply Forall_map. rewrite Forall_forall in Hrow. apply Forall_forall.
  intros b Hb. specialize (Hrow b Hb). lra.
Qed.

Lemma doy_basis_entries_bounded_witness :
  match compute_doy_basis [0; 1 / 2; 1] (30 / 365.25) 12 with
  | Ok basis => Forall (Forall (fun b => -1 < b < 1)) basis
  | Raise _ => 12%nat = 0%nat
  end.
Proof.
  apply (doy_basis_entries_bounded [0; 1 / 2; 1] (30 / 365.25) 12). lra.
Defined.

(** ** Identifiability of the seasonal coefficients *)

Lemma inner_shifted (row coefficients : vec) (k : R) :
  length row = length coefficients ->
  Np.inner row (map (fun c => c + k) coefficients)
  = Np.inner row coefficients + k * Np.sum row.
Proof.
  revert coefficients.
  induction row as [|b row IH]; intros [|c cs] Hlen; simpl in Hlen;
    try discriminate.
  - unfold Np.inner. simpl. lra.
  - simpl map. rewrite !inner_cons, IH by lia. simpl. lra.
Qed.

(** Extra X7.  Adding one constant to all seasonal coefficients does not
    change the seasonal effect (nor whether it raises): the rows of the
    basis are centred, so only the differences between the twelve
    coefficients matter. *)
Theorem yday_effect_ignores_common_shift (theta : sites) (contrasts_yday : mat)
    (yday_fraction : vec) (k : R) :
  sample_yday_effect
    (with_yday_coefficients theta
       (map (fun c => c + k) (yday_coefficients theta)))
    contrasts_yday yday_fraction
  = sample_yday_effect theta contrasts_yday yday_fraction.
Proof.
  unfold sample_yday_effect. simpl yday_rbf_width. simpl yday_coefficients.
  rewrite compute_doy_basis_ok by lia. cbv beta iota delta [bind].
  set (basis := center_rows _).
  assert (Hrows : Forall (fun row => length row = 12%nat /\ Np.sum row = 0) basis).
  { apply center_rows_spec; [lia|].
    apply Forall_map, Forall_forall. intros x _.
    now rewrite length_map, linspace_length. }
  unfold sample_shape. rewrite length_map.
  destruct (Nat.eqb_spec (length (yday_coefficients theta)) 12) as [Hlen|];
    [|reflexivity].
  assert (Hshape : Forall (fun row => length row = length (yday_coefficients theta))
                     basis).
  { eapply Forall_impl; [|exact Hrows]. intros row [Hl _]. simpl. lia. }
  rewrite (dot_rows_ok basis (yday_coefficients theta) Hshape).
  rewrite dot_rows_ok by (now rewrite length_map).
  f_equal. apply map_ext_in. intros row Hin.
  rewrite Forall_forall in Hrows. destruct (Hrows row Hin) as [Hl Hsum].
  rewrite inner_shifted by lia. rewrite Hsum. lra.
Qed.

(** ** Weekday effect *)

Lemma clamp_index_last (len : nat) (i : Z) :
  (1 <= len)%nat -> (i = -1 \/ Z.of_nat len - 1 <= i)%Z ->
  Np.clamp_index len i = (len - 1)%nat.
Proof.
  intros Hlen Hi. unfold Np.clamp_index.
  destruct (Z.ltb_spec i 0); lia.
Qed.

(** Extra X8.  An out-of-range weekday label never raises: with seven
    weekday effects, the label 0 and every label from 7 upwards read the
    effect of day 7. *)
Theorem wday_label_out_of_range_reads_last_day (theta : sites)
    (contrasts_wday : mat) (before after : list Z) (d : Z) :
  length contrasts_wday = 7%nat -> (d = 0 \/ 7 <= d)%Z ->
  sample_wday_effect theta contrasts_wday (before ++ d :: after)
  = sample_wday_effect theta contrasts_wday (before ++ 7%Z :: after).
Proof.
  intros Hrows Hd. unfold sample_wday_effect.
  destruct (sample_shape (wday_coefficients theta) 6) as [coefficients|];
    [|reflexivity].
  cbv beta iota delta [bind].
  destruct (Np.dot contrasts_wday coefficients) as [wday_effects|] eqn:Hdot;
    [|reflexivity].
  apply dot_length in Hdot. rewrite Hrows in Hdot.
  f_equal. rewrite !map_app. f_equal. simpl. f_equal.
  unfold Np.get. rewrite Hdot.
  rewrite (clamp_index_last 7 (d - 1)) by lia. reflexivity.
Qed.

Lemma wday_label_out_of_range_reads_last_day_witness :
  sample_wday_effect theta_example (map (Patsy.diff_row 7) (seq 0 7))
    ([1%Z] ++ 0%Z :: [3%Z])
  = sample_wday_effect theta_example (map (Patsy.diff_row 7) (seq 0 7))
      ([1%Z] ++ 7%Z :: [3%Z]).
Proof.
  apply (wday_label_out_of_range_reads_last_day theta_example
           (map (Patsy.diff_row 7) (seq 0 7)) [1%Z] [3%Z] 0).
  - reflexivity.
  - left. reflexivity.
Defined.

(** The trajectory that the contrast matrix for [n] levels makes of the
    innovations [v]. *)
Lemma diff_contrast_trajectory (n : nat) (v : vec) :
  (1 <= n)%nat -> length v = (n - 1)%nat ->
  let trajectory := map (fun i => Np.inner (Patsy.diff_row n i) v) (seq 0 n) in
  Np.dot (map (Patsy.diff_row n) (seq 0 n)) v = Ok trajectory /\
  Np.diff trajectory = v /\ Np.sum trajectory = 0.
Proof.
  intros Hn Hv trajectory. unfold trajectory. split; [|split].
  - rewrite dot_rows_ok by (rewrite Hv; apply diff_rows_shape).
    now rewrite map_map.
  - unfold Patsy.diff_row. rewrite <- Hv.
    replace n with (S (length v)) at 1 by lia.
    rewrite diff_map_seq.
    transitivity (map (fun t => nth t v 0) (seq 0 (length v)));
      [|apply map_nth_seq].
    apply map_ext. intros i.
    rewrite consecutive_rows_inner by lia. simpl. now rewrite Nat.sub_0_r.
  - unfold Patsy.diff_row. rewrite <- Hv. apply trajectory_sum. lia.
Qed.

(** Extra X9.  Over one week, labels 1 to 7 in order, with the weekday
    contrasts that [prepare_model_arguments] builds and six coefficients, the
    seven weekday effects sum to zero and the step from each day to the next
    is the corresponding coefficient. *)
Theorem weekly_effects_centred (theta : sites) :
  length (wday_coefficients theta) = 6%nat ->
  exists contrasts_wday wday_effect,
    Patsy.code_without_intercept 7 = Ok contrasts_wday /\
    sample_wday_effect theta contrasts_wday [1; 2; 3; 4; 5; 6; 7]%Z
      = Ok wday_effect /\
    Np.sum wday_effect = 0 /\
    Np.diff wday_effect = wday_coefficients theta.
Proof.
  intros Hlen.
  destruct (diff_contrast_trajectory 7 (wday_coefficients theta))
    as [Hdot [Hdiff Hsum]]; [lia|exact Hlen|].
  eexists. eexists. split; [reflexivity|].
  unfold sample_wday_effect, sample_shape. rewrite Hlen.
  cbv beta iota delta [bind Nat.eqb].
  rewrite Hdot. cbv beta iota delta [bind].
  split; [reflexivity|]. split; [exact Hsum|exact Hdiff].
Qed.

Lemma weekly_effects_centred_witness :
  exists contrasts_wday wday_effect,
    Patsy.code_without_intercept 7 = Ok contrasts_wday /\
    sample_wday_effect theta_example contrasts_wday [1; 2; 3; 4; 5; 6; 7]%Z
      = Ok wday_effect /\
    Np.sum wday_effect = 0 /\
    Np.diff wday_effect = wday_coefficients theta_example.
Proof.
  apply (weekly_effects_centred theta_example). reflexivity.
Defined.

(** ** Random walk *)

Lemma diff_affine (s m : R) (a : vec) :
  Np.diff (map (fun x => x * s + m) a) = map (fun x => x * s) (Np.diff a).
Proof.
  unfold Np.diff.
  assert (H : forall u w : vec,
             Np.zip_with Rminus (map (fun x => x * s + m) u)
               (map (fun x => x * s + m) w)
             = map (fun x => x * s) (Np.zip_with Rminus u w)).
  { induction u as [|x u IH]; intros [|y w]; simpl; try reflexivity.
    rewrite IH. f_equal. ring. }
  destruct a as [|x a]; [reflexivity|]. simpl tl. apply (H a (x :: a)).
Qed.

Lemma sum_affine (s m : R) (a : vec) :
  Np.sum (map (fun x => x * s + m) a) = Np.sum a * s + INR (length a) * m.
Proof.
  induction a as [|x a IH]; [simpl; lra|].
  change (length (x :: a)) with (S (length a)). rewrite S_INR.
  simpl. rewrite IH. lra.
Qed.

(** Extra X10.  With the contrast matrix built for [n_states >= 1] knots and
    innovations of length [n_states - 1], [sample_random_walk] returns one
    value per knot; the successive differences of the knots are the
    innovations times the volatility [exp log_sigma], and the mean of the
    knots is [log_state_mean]. *)
Theorem random_walk_increments_and_level (theta : sites) (n_states : nat) :
  (1 <= n_states)%nat ->
  length (log_state_delta theta) = (n_states - 1)%nat ->
  exists contrasts_sdif_t knots,
    Patsy.code_without_intercept n_states = Ok contrasts_sdif_t /\
    sample_random_walk theta contrasts_sdif_t n_states = Ok knots /\
    length knots = n_states /\
    Np.diff knots
      = Np.scale (log_state_delta theta) (exp (log_sigma theta)) /\
    Np.mean knots = log_state_mean theta.
Proof.
  intros Hn Hlen.
  destruct (diff_contrast_trajectory n_states (log_state_delta theta) Hn Hlen)
    as [Hdot [Hdiff Hsum]].
  set (trajectory :=
         map (fun i => Np.inner (Patsy.diff_row n_states i)
                         (log_state_delta theta)) (seq 0 n_states)) in *.
  exists (map (Patsy.diff_row n_states) (seq 0 n_states)).
  exists (map (fun x => x * exp (log_sigma theta) + log_state_mean theta)
            trajectory).
  assert (Htl : length trajectory = n_states)
    by (unfold trajectory; now rewrite length_map, length_seq).
  split; [destruct n_states; [lia|reflexivity]|].
  split.
  { unfold sample_random_walk. destruct n_states as [|k]; [lia|].
    unfold sample_shape. replace (S k - 1)%nat with k in Hlen by lia.
    rewrite Hlen, Nat.eqb_refl. cbv beta iota delta [bind].
    rewrite Hdot. cbv beta iota delta [bind].
    unfold Np.shift, Np.scale. now rewrite map_map. }
  split; [now rewrite length_map|].
  split.
  - rewrite diff_affine, Hdiff. reflexivity.
  - unfold Np.mean. rewrite sum_affine, Hsum, length_map, Htl.
    assert (INR n_states <> 0) by (apply not_0_INR; lia).
    field. assumption.
Qed.

Lemma random_walk_increments_and_level_witness :
  exists contrasts_sdif_t knots,
    Patsy.code_without_intercept 2 = Ok contrasts_sdif_t /\
    sample_random_walk theta_example contrasts_sdif_t 2 = Ok knots /\
    length knots = 2%nat /\
    Np.diff knots
      = Np.scale (log_state_delta theta_example)
          (exp (log_sigma theta_example)) /\
    Np.mean knots = log_state_mean theta_example.
Proof.
  apply (random_walk_increments_and_level theta_example 2).
  - lia.
  - reflexivity.
Defined.

(** ** Interpolation between knots *)

Lemma floor_bounds (x : R) : IZR (Np.floor x) <= x < IZR (Np.floor x) + 1.
Proof.
  unfold Np.floor. pose proof (base_Int_part x). lra.
Qed.

Lemma floor_ceil_cases (x : R) :
  (x = IZR (Np.floor x) /\ Np.ceil x = Np.floor x)
  \/ (IZR (Np.floor x) < x /\ Np.ceil x = (Np.floor x + 1)%Z).
Proof.
  pose proof (floor_bounds x) as [Hlo Hhi].
  destruct Hlo as [Hlt|Heq].
  - right. split; [assumption|]. apply ceil_spec. rewrite plus_IZR. lra.
  - left. split; [now symmetry|]. apply ceil_spec. lra.
Qed.

(** Extra X11.  An interpolated trend value never overshoots: for a non-zero
    factor it lies between the two knot values it reads, because the weight
    [t/c - floor (t/c)] is in [0,1). *)
Theorem interpolation_between_bracketing_knots (c : Z) (knots : vec) (t : nat) :
  (c <> 0)%Z ->
  Rmin (Np.get knots (Np.floor (INR t / IZR c)))
       (Np.get knots (Np.ceil (INR t / IZR c)))
  <= interpolate c knots t
  <= Rmax (Np.get knots (Np.floor (INR t / IZR c)))
          (Np.get knots (Np.ceil (INR t / IZR c))).
Proof.
  intros _. unfold interpolate.
  pose proof (floor_bounds (INR t / IZR c)) as Hw.
  set (w := INR t / IZR c - IZR (Np.floor (INR t / IZR c))).
  assert (Hw01 : 0 <= w < 1) by (unfold w; lra).
  set (kb := Np.get knots (Np.floor (INR t / IZR c))).
  set (ka := Np.get knots (Np.ceil (INR t / IZR c))).
  unfold Rmin, Rmax. destruct (Rle_dec kb ka); nra.
Qed.

Lemma interpolation_between_bracketing_knots_witness :
  Rmin (Np.get [1; 5] (Np.floor (INR 1 / IZR 2)))
       (Np.get [1; 5] (Np.ceil (INR 1 / IZR 2)))
  <= interpolate 2 [1; 5] 1
  <= Rmax (Np.get [1; 5] (Np.floor (INR 1 / IZR 2)))
          (Np.get [1; 5] (Np.ceil (INR 1 / IZR 2))).
Proof.
  apply (interpolation_between_bracketing_knots 2 [1; 5] 1). lia.
Defined.

Lemma get_at (a : vec) (z : Z) :
  (0 <= z < Z.of_nat (length a))%Z -> Np.get a z = nth (Z.to_nat z) a 0.
Proof.
  intros Hz. rewrite <- (Z2Nat.id z) at 1 by lia.
  apply get_in_range. lia.
Qed.

(** Extra X12.  Linear interpolation is exact on linear knot trajectories:
    if knot [k] is [a + b * k] for every knot, then for a factor [c >= 1] and
    an observation index whose upper knot exists, the interpolated value is
    [a + b * (t / c)]. *)
Theorem interpolation_exact_on_linear_knots (c : Z) (knots : vec) (a b : R)
    (t : nat) :
  (1 <= c)%Z ->
  (forall k, (k < length knots)%nat -> nth k knots 0 = a + b * INR k) ->
  (Np.ceil (INR t / IZR c) < Z.of_nat (length knots))%Z ->
  interpolate c knots t = a + b * (INR t / IZR c).
Proof.
  intros Hc Hlin Hceil. unfold interpolate.
  set (x := INR t / IZR c) in *.
  assert (Hf0 : (0 <= Np.floor x)%Z).
  { unfold x. rewrite floor_quotient by lia. apply Z.div_pos; lia. }
  assert (Hknot : forall z, (0 <= z < Z.of_nat (length knots))%Z ->
                            Np.get knots z = a + b * IZR z).
  { intros z Hz. rewrite get_at by assumption.
    rewrite Hlin by lia. now rewrite INR_IZR_INZ, Z2Nat.id by lia. }
  destruct (floor_ceil_cases x) as [[Hx Hcf]|[Hx Hcf]].
  - rewrite Hcf in *. rewrite Hknot by lia. rewrite <- Hx. ring.
  - rewrite Hcf in *. rewrite !Hknot by lia. rewrite plus_IZR. ring.
Qed.

Lemma interpolation_exact_on_linear_knots_witness :
  interpolate 2 [1; 3; 5] 3 = 1 + 2 * (INR 3 / IZR 2).
Proof.
  apply (interpolation_exact_on_linear_knots 2 [1; 3; 5] 1 2 3).
  - lia.
  - intros k Hk. destruct k as [|[|[|k]]]; simpl in *; try lra; lia.
  - rewrite ceil_quotient by lia. simpl length. reflexivity.
Defined.

(** Extra X13.  Past the last knot the trend is flat: for a factor
    [c >= 1], every observation whose lower index [floor (t/c)] is the last
    knot gets exactly the value of that knot, whatever its weight, since the
    upper read is clamped to the same knot. *)
Theorem interpolation_flat_after_last_knot (c : Z) (knots : vec) (t : nat) :
  (1 <= c)%Z -> (1 <= length knots)%nat ->
  Np.floor (INR t / IZR c) = (Z.of_nat (length knots) - 1)%Z ->
  interpolate c knots t = nth (length knots - 1) knots 0.
Proof.
  intros Hc Hlen Hfloor. unfold interpolate. rewrite Hfloor.
  assert (Hlast : forall z, (Z.of_nat (length knots) - 1 <= z)%Z ->
                            Np.get knots z = nth (length knots - 1) knots 0).
  { intros z Hz. unfold Np.get. now rewrite clamp_index_last by lia. }
  destruct (floor_ceil_cases (INR t / IZR c)) as [[_ Hcf]|[_ Hcf]];
    rewrite Hcf, Hfloor, !Hlast by lia; ring.
Qed.

Lemma interpolation_flat_after_last_knot_witness :
  interpolate 3 [1; 5] 4 = nth (length [1; 5] - 1) [1; 5] 0.
Proof.
  apply (interpolation_flat_after_last_knot 3 [1; 5] 4).
  - lia.
  - simpl. lia.
  - rewrite floor_quotient by lia. reflexivity.
Defined.

(** Extra X14.  Whichever branch the model takes, a trend that is returned
    has exactly one value per observation. *)
Theorem trend_has_one_value_per_observation (theta : sites) (c : Z)
    (contrasts_sdif_t : mat) (n_obs : nat) (trend : vec) :
  log_state_base theta c contrasts_sdif_t n_obs (length contrasts_sdif_t)
    = Ok trend ->
  length trend = n_obs.
Proof.
  unfold log_state_base.
  destruct (Nat.eqb_spec n_obs (length contrasts_sdif_t)) as [->|Hne].
  - apply sample_random_walk_length.
  - rewrite downsampled_walk_pointwise.
    destruct sample_random_walk; [|discriminate].
    cbv beta iota delta [bind]. intros [= <-].
    now rewrite length_map, length_seq.
Qed.

Lemma trend_has_one_value_per_observation_witness :
  exists trend,
    log_state_base theta_example 2 (map (Patsy.diff_row 2) (seq 0 2)) 3 2
      = Ok trend /\
    length trend = 3%nat.
Proof.
  eexists. split; [reflexivity|].
  apply (trend_has_one_value_per_observation theta_example 2
           (map (Patsy.diff_row 2) (seq 0 2)) 3).
  reflexivity.
Defined.

(** ** Knot count *)

(** Extra X15.  For a factor of at least 2 and a non-empty series the knot
    count of [prepare_model_arguments] is at least 1 and at most the number
    of observations, and from three observations on it is strictly smaller,
    so the model takes the interpolating branch. *)
Theorem knot_count_bounds (n_obs : nat) (c : Z) :
  (2 <= c)%Z -> (1 <= n_obs)%nat ->
  exists n_states : Z,
    n_states_of n_obs c = Ok n_states /\
    (1 <= n_states <= Z.of_nat n_obs)%Z /\
    ((3 <= n_obs)%nat -> (n_states < Z.of_nat n_obs)%Z).
Proof.
  intros Hc Hn. exists (Z.of_nat n_obs / c + 1)%Z.
  split; [now apply n_states_of_downsampled|].
  assert (H0 : (0 <= Z.of_nat n_obs / c)%Z) by (apply Z.div_pos; lia).
  assert (H2 : (Z.of_nat n_obs / c <= Z.of_nat n_obs / 2)%Z)
    by (apply Z.div_le_compat_l; lia).
  assert (H3 : (2 * (Z.of_nat n_obs / 2) <= Z.of_nat n_obs)%Z)
    by (apply Z.mul_div_le; lia).
  split; [lia|]. intros Hn3. lia.
Qed.

Lemma knot_count_bounds_witness :
  exists n_states : Z,
    n_states_of 5 3 = Ok n_states /\
    (1 <= n_states <= Z.of_nat 5)%Z /\
    ((3 <= 5)%nat -> (n_states < Z.of_nat 5)%Z).
Proof.
  apply (knot_count_bounds 5 3); lia.
Defined.

(** ** What [prepare_model_arguments] hands to the model *)

Lemma prepare_inversion (sales : list nat) (log_price : vec) (wday : list Z)
    (yday_fraction : vec) (c : Z) (a : model_arguments) :
  prepare_model_arguments sales log_price wday yday_fraction c = Ok a ->
  exists n_states : nat,
    (1 <= n_states)%nat /\
    (exists K, n_states_of (length sales) c = Ok K /\ n_states = Z.to_nat K) /\
    a = {| arg_sales := sales;
           arg_log_price_centered := Np.shift log_price (- Np.mean log_price);
           arg_wday := wday;
           arg_yday_fraction := yday_fraction;
           arg_downsampling_factor := c;
           arg_contrasts_sdif_t := map (Patsy.diff_row n_states) (seq 0 n_states);
           arg_contrasts_wday := map (Patsy.diff_row 7) (seq 0 7);
           arg_contrasts_yday :=
             center_rows
               (map (fun x => map (fun mu => periodic_rbf x mu (30 / 365.25))
                       (Np.linspace (1 / (2 * INR 12)) (1 - 1 / (2 * INR 12)) 12))
                  yday_fraction) |}.
Proof.
  unfold prepare_model_arguments.
  destruct (n_states_of (length sales) c) as [K|]; [|discriminate].
  cbv beta iota delta [bind].
  destruct (Z.to_nat K) as [|k] eqn:HK; [discriminate|].
  intros [= <-]. exists (S k). split; [lia|].
  split; [exists K; split; [reflexivity|now symmetry]|reflexivity].
Qed.

Lemma prepare_succeeds (sales : list nat) (log_price : vec) (wday : list Z)
    (yday_fraction : vec) (c K : Z) :
  n_states_of (length sales) c = Ok K -> (1 <= K)%Z ->
  exists a, prepare_model_arguments sales log_price wday yday_fraction c = Ok a.
Proof.
  intros HK H1. unfold prepare_model_arguments. rewrite HK.
  cbv beta iota delta [bind].
  destruct (Z.to_nat K) as [|k] eqn:Hk; [lia|].
  eexists. reflexivity.
Qed.

Lemma sum_shift (a : vec) (m : R) :
  Np.sum (Np.shift a m) = Np.sum a + INR (length a) * m.
Proof.
  unfold Np.shift. induction a as [|x a IH]; [simpl; lra|].
  change (length (x :: a)) with (S (length a)). rewrite S_INR.
  simpl. rewrite IH. lra.
Qed.

(** Extra X16.  The centred log price that [prepare_model_arguments] returns
    has as many entries as the log price and sums to zero. *)
Theorem prepared_log_price_is_centred (sales : list nat) (log_price : vec)
    (wday : list Z) (yday_fraction : vec) (c : Z) (a : model_arguments) :
  prepare_model_arguments sales log_price wday yday_fraction c = Ok a ->
  length (arg_log_price_centered a) = length log_price /\
  Np.sum (arg_log_price_centered a) = 0.
Proof.
  intros Ha. apply prepare_inversion in Ha.
  destruct Ha as [n_states [_ [_ ->]]]. simpl arg_log_price_centered.
  split; [unfold Np.shift; apply length_map|].
  rewrite sum_shift. unfold Np.mean.
  destruct log_price as [|p log_price]; [simpl; lra|].
  assert (INR (length (p :: log_price)) <> 0)
    by (apply not_0_INR; simpl; lia).
  field. assumption.
Qed.

Lemma prepared_log_price_is_centred_witness :
  length (arg_log_price_centered three_observations) = length [1; 2; 3] /\
  Np.sum (arg_log_price_centered three_observations) = 0.
Proof.
  apply (prepared_log_price_is_centred [3%nat; 4%nat; 5%nat] [1; 2; 3]
           [1%Z; 2%Z; 3%Z] [0; 1 / 365; 2 / 365] 2 three_observations).
  apply three_observations_prepared.
Defined.

(** Extra X17.  For a factor of at least 1, [prepare_model_arguments] returns
    arguments in every case but one: the empty series at the default factor
    1, where the contrast library is asked for zero levels. *)
Theorem prepare_fails_only_on_empty_series_at_factor_one (sales : list nat)
    (log_price : vec) (wday : list Z) (yday_fraction : vec) (c : Z) :
  (1 <= c)%Z ->
  ((exists a,
       prepare_model_arguments sales log_price wday yday_fraction c = Ok a)
   <-> (c <> 1%Z \/ sales <> [])).
Proof.
  intros Hc. split.
  - intros [a Ha]. destruct (Z.eq_dec c 1) as [->|Hne]; [|now left].
    right. intros ->. discriminate.
  - intros Hcase. destruct (Z.eq_dec c 1) as [->|Hne].
    + apply (prepare_succeeds _ _ _ _ 1 (Z.of_nat (length sales)));
        [reflexivity|].
      destruct Hcase as [Hc1|Hs]; [congruence|].
      destruct sales; [congruence|simpl; lia].
    + apply (prepare_succeeds _ _ _ _ c (Z.of_nat (length sales) / c + 1)%Z).
      * apply n_states_of_downsampled. lia.
      * assert (0 <= Z.of_nat (length sales) / c)%Z
          by (apply Z.div_pos; lia). lia.
Qed.

Lemma prepare_fails_only_on_empty_series_at_factor_one_witness :
  (exists a, prepare_model_arguments [] [] [] [] 7 = Ok a)
  <-> (7%Z <> 1%Z \/ @nil nat <> []).
Proof.
  apply (prepare_fails_only_on_empty_series_at_factor_one [] [] [] [] 7). lia.
Defined.

(** Extra X18.  The design matrices that [prepare_model_arguments] returns
    have the shapes the model needs: the trend contrasts have K >= 1 rows of
    K - 1 entries, the weekday contrasts 7 rows of 6 entries, and the
    seasonal basis one row of 12 entries per day-of-year fraction. *)
Theorem prepared_matrices_have_model_shapes (sales : list nat)
    (log_price : vec) (wday : list Z) (yday_fraction : vec) (c : Z)
    (a : model_arguments) :
  prepare_model_arguments sales log_price wday yday_fraction c = Ok a ->
  (1 <= length (arg_contrasts_sdif_t a))%nat /\
  Forall (fun row => length row = (length (arg_contrasts_sdif_t a) - 1)%nat)
    (arg_contrasts_sdif_t a) /\
  length (arg_contrasts_wday a) = 7%nat /\
  Forall (fun row => length row = 6%nat) (arg_contrasts_wday a) /\
  length (arg_contrasts_yday a) = length yday_fraction /\
  Forall (fun row => length row = 12%nat) (arg_contrasts_yday a).
Proof.
  intros Ha. apply prepare_inversion in Ha.
  destruct Ha as [n_states [Hn [_ ->]]].
  cbv beta iota delta [arg_contrasts_sdif_t arg_contrasts_wday
                       arg_contrasts_yday].
  rewrite length_map, length_seq.
  split; [exact Hn|]. split; [apply diff_rows_shape|].
  split; [reflexivity|]. split; [apply (diff_rows_shape 7)|].
  split.
  - unfold center_rows. now rewrite !length_map.
  - unfold center_rows. apply Forall_map, Forall_map, Forall_forall.
    intros x _. now rewrite !length_map, linspace_length.
Qed.

Lemma prepared_matrices_have_model_shapes_witness :
  (1 <= length (arg_contrasts_sdif_t three_observations))%nat /\
  Forall (fun row =>
            length row = (length (arg_contrasts_sdif_t three_observations) - 1)%nat)
    (arg_contrasts_sdif_t three_observations) /\
  length (arg_contrasts_wday three_observations) = 7%nat /\
  Forall (fun row => length row = 6%nat) (arg_contrasts_wday three_observations) /\
  length (arg_contrasts_yday three_observations)
    = length [0; 1 / 365; 2 / 365] /\
  Forall (fun row => length row = 12%nat) (arg_contrasts_yday three_observations).
Proof.
  apply (prepared_matrices_have_model_shapes [3%nat; 4%nat; 5%nat] [1; 2; 3]
           [1%Z; 2%Z; 3%Z] [0; 1 / 365; 2 / 365] 2 three_observations).
  apply three_observations_prepared.
Defined.

(** ** The model on prepared arguments *)

Lemma sample_shape_ok (value : vec) (shape : nat) :
  length value = shape -> sample_shape value shape = Ok value.
Proof.
  intros H. unfold sample_shape. now rewrite H, Nat.eqb_refl.
Qed.

Lemma sample_random_walk_ok (theta : sites) (n_states : nat) :
  (1 <= n_states)%nat ->
  length (log_state_delta theta) = (n_states - 1)%nat ->
  exists knots,
    sample_random_walk theta (map (Patsy.diff_row n_states) (seq 0 n_states))
      n_states = Ok knots.
Proof.
  intros Hn Hlen. unfold sample_random_walk.
  destruct n_states as [|k]; [lia|].
  rewrite sample_shape_ok by lia. cbv beta iota delta [bind].
  rewrite dot_rows_ok.
  - eexists. reflexivity.
  - rewrite Hlen. apply diff_rows_shape.
Qed.

Lemma log_state_base_ok (theta : sites) (c : Z) (m : mat) (n_obs : nat)
    (knots : vec) :
  sample_random_walk theta m (length m) = Ok knots ->
  exists trend,
    log_state_base theta c m n_obs (length m) = Ok trend /\
    length trend = n_obs.
Proof.
  intros Hw. unfold log_state_base.
  destruct (Nat.eqb_spec n_obs (length m)) as [->|Hne].
  - exists knots. split; [exact Hw|].
    now apply sample_random_walk_length in Hw.
  - rewrite downsampled_walk_pointwise, Hw. cbv beta iota delta [bind].
    eexists. split; [reflexivity|]. now rewrite length_map, length_seq.
Qed.

(** The three summands of the log-rate on prepared arguments and site
    values of the declared shapes. *)
Lemma model_parts_ok (theta : sites) (sales : list nat) (log_price : vec)
    (wday : list Z) (yday_fraction : vec) (c : Z) (a : model_arguments) :
  prepare_model_arguments sales log_price wday yday_fraction c = Ok a ->
  length (log_state_delta theta) = (length (arg_contrasts_sdif_t a) - 1)%nat ->
  length (wday_coefficients theta) = 6%nat ->
  length (yday_coefficients theta) = 12%nat ->
  exists trend wday_effect yday_effect,
    run_model theta a
      = (lr <- log_rate trend yday_effect wday_effect ;; Ok (Np.vexp lr)) /\
    length trend = length sales /\
    length wday_effect = length wday /\
    length yday_effect = length yday_fraction.
Proof.
  intros Ha Hdelta Hwc Hyc. apply prepare_inversion in Ha.
  destruct Ha as [n_states [Hn [_ ->]]].
  cbv beta iota delta [arg_contrasts_sdif_t] in Hdelta.
  rewrite length_map, length_seq in Hdelta.
  unfold run_model.
  cbv beta iota delta [arg_sales arg_log_price_centered arg_wday
    arg_yday_fraction arg_contrasts_sdif_t arg_contrasts_wday
    arg_contrasts_yday arg_downsampling_factor].
  rewrite model_factors_through_log_rate. unfold model_log_rate.
  set (m := map (Patsy.diff_row n_states) (seq 0 n_states)).
  assert (Hm : length m = n_states)
    by (unfold m; now rewrite length_map, length_seq).
  destruct (sample_random_walk_ok theta n_states Hn Hdelta) as [knots Hk].
  fold m in Hk. rewrite <- Hm in Hk.
  destruct (log_state_base_ok theta c m (length sales) knots Hk)
    as [trend [Ht Htl]].
  rewrite Ht. cbv beta iota delta [bind].
  destruct (sample_wday_effect theta (map (Patsy.diff_row 7) (seq 0 7)) wday)
    as [w|] eqn:Hw.
  2:{ exfalso. unfold sample_wday_effect in Hw.
      rewrite sample_shape_ok in Hw by assumption.
      cbv beta iota delta [bind] in Hw.
      rewrite dot_rows_ok in Hw by (rewrite Hwc; apply (diff_rows_shape 7)).
      discriminate. }
  destruct (sample_yday_effect theta
              (center_rows
                 (map (fun x => map (fun mu => periodic_rbf x mu (30 / 365.25))
                         (Np.linspace (1 / (2 * INR 12))
                            (1 - 1 / (2 * INR 12)) 12)) yday_fraction))
              yday_fraction) as [y|] eqn:Hy.
  2:{ exfalso. unfold sample_yday_effect in Hy.
      destruct (doy_basis_shape yday_fraction (yday_rbf_width theta) 12
                  ltac:(lia)) as [basis [Hb [_ Hrows]]].
      rewrite Hb in Hy. cbv beta iota delta [bind] in Hy.
      rewrite sample_shape_ok in Hy by assumption.
      rewrite dot_rows_ok in Hy by (now rewrite Hyc).
      discriminate. }
  exists trend, w, y. split; [reflexivity|].
  split; [exact Htl|]. split.
  - now apply sample_wday_effect_length in Hw.
  - now apply sample_yday_effect_length in Hy.
Qed.

(** Extra X19.  On arguments returned by [prepare_model_arguments], with
    calendar columns as long as the sales column and site values of the
    declared shapes (K - 1 innovations, 6 weekday and 12 seasonal
    coefficients), the model raises nothing and returns one rate per
    observation. *)
Theorem prepared_model_returns_one_rate_per_observation (theta : sites)
    (sales : list nat) (log_price : vec) (wday : list Z) (yday_fraction : vec)
    (c : Z) (a : model_arguments) :
  prepare_model_arguments sales log_price wday yday_fraction c = Ok a ->
  length wday = length sales -> length yday_fraction = length sales ->
  length (log_state_delta theta) = (length (arg_contrasts_sdif_t a) - 1)%nat ->
  length (wday_coefficients theta) = 6%nat ->
  length (yday_coefficients theta) = 12%nat ->
  exists rate, run_model theta a = Ok rate /\ length rate = length sales.
Proof.
  intros Ha Hw Hy Hdelta Hwc Hyc.
  destruct (model_parts_ok theta sales log_price wday yday_fraction c a
              Ha Hdelta Hwc Hyc) as [trend [w [y [Hrun [Ht [Hwl Hyl]]]]]].
  rewrite Hrun, log_rate_pointwise by congruence.
  cbv beta iota delta [bind]. eexists. split; [reflexivity|].
  unfold Np.vexp. now rewrite !length_map, length_seq.
Qed.

Lemma prepared_model_returns_one_rate_per_observation_witness :
  exists rate,
    run_model theta_example three_observations = Ok rate /\
    length rate = length [3%nat; 4%nat; 5%nat].
Proof.
  apply (prepared_model_returns_one_rate_per_observation theta_example
           [3%nat; 4%nat; 5%nat] [1; 2; 3] [1%Z; 2%Z; 3%Z]
           [0; 1 / 365; 2 / 365] 2 three_observations);
    try reflexivity.
  apply three_observations_prepared.
Defined.

Lemma add_broadcast_right (a b : vec) :
  length a <> length b -> length a <> 1%nat -> length b = 1%nat ->
  Np.add a b = Ok (map (fun x => x + hd 0 b) a).
Proof.
  intros Hab Ha Hb. unfold Np.add.
  destruct (Nat.eqb_spec (length a) (length b)); [contradiction|].
  destruct (Nat.eqb_spec (length a) 1); [contradiction|].
  now rewrite Hb.
Qed.

Lemma add_mismatch (a b : vec) :
  length a <> length b -> length a <> 1%nat -> length b <> 1%nat ->
  Np.add a b = Raise ValueError.
Proof.
  intros Hab Ha Hb. unfold Np.add.
  destruct (Nat.eqb_spec (length a) (length b)); [contradiction|].
  destruct (Nat.eqb_spec (length a) 1); [contradiction|].
  destruct (Nat.eqb_spec (length b) 1); [contradiction|reflexivity].
Qed.

(** Extra X20.  A weekday column of the wrong length is not always refused:
    on prepared arguments with at least two observations, a weekday column
    holding a single label is broadcast, and the model returns one rate per
    observation, all computed with that one weekday effect. *)
Theorem single_weekday_label_is_broadcast (theta : sites)
    (sales : list nat) (log_price : vec) (d : Z) (yday_fraction : vec)
    (c : Z) (a : model_arguments) :
  prepare_model_arguments sales log_price [d] yday_fraction c = Ok a ->
  (2 <= length sales)%nat -> length yday_fraction = length sales ->
  length (log_state_delta theta) = (length (arg_contrasts_sdif_t a) - 1)%nat ->
  length (wday_coefficients theta) = 6%nat ->
  length (yday_coefficients theta) = 12%nat ->
  exists rate, run_model theta a = Ok rate /\ length rate = length sales.
Proof.
  intros Ha Hn Hy Hdelta Hwc Hyc.
  destruct (model_parts_ok theta sales log_price [d] yday_fraction c a
              Ha Hdelta Hwc Hyc) as [trend [w [y [Hrun [Ht [Hwl Hyl]]]]]].
  simpl in Hwl. rewrite Hrun. unfold log_rate.
  rewrite add_same_length by congruence. cbv beta iota delta [bind].
  assert (Hs : length (Np.zip_with Rplus trend y) = length sales)
    by (rewrite zip_with_length; congruence).
  rewrite add_broadcast_right by lia.
  eexists. split; [reflexivity|].
  unfold Np.vexp. now rewrite !length_map.
Qed.

Lemma single_weekday_label_is_broadcast_witness :
  exists a rate,
    prepare_model_arguments [3%nat; 4%nat; 5%nat] [1; 2; 3] [1%Z]
      [0; 1 / 365; 2 / 365] 2 = Ok a /\
    run_model theta_example a = Ok rate /\
    length rate = length [3%nat; 4%nat; 5%nat].
Proof.
  assert (Ha : { a | prepare_model_arguments [3%nat; 4%nat; 5%nat] [1; 2; 3]
                       [1%Z] [0; 1 / 365; 2 / 365] 2 = Ok a
                     /\ length (arg_contrasts_sdif_t a) = 2%nat }).
  { unfold prepare_model_arguments.
    rewrite n_states_of_downsampled by lia. eexists. split; reflexivity. }
  destruct Ha as [a [Ha Hlen]]. exists a.
  destruct (single_weekday_label_is_broadcast theta_example
              [3%nat; 4%nat; 5%nat] [1; 2; 3] 1 [0; 1 / 365; 2 / 365] 2 a)
    as [rate Hrate]; try reflexivity.
  - exact Ha.
  - simpl. lia.
  - rewrite Hlen. reflexivity.
  - exists rate. split; [exact Ha|exact Hrate].
Defined.

(** Extra X21.  A weekday column whose length is neither the number of
    observations nor 1 makes the model raise instead of returning a rate, on
    prepared arguments with at least two observations and site values of
    the declared shapes. *)
Theorem mismatched_weekday_column_raises (theta : sites)
    (sales : list nat) (log_price : vec) (wday : list Z) (yday_fraction : vec)
    (c : Z) (a : model_arguments) :
  prepare_model_arguments sales log_price wday yday_fraction c = Ok a ->
  (2 <= length sales)%nat -> length yday_fraction = length sales ->
  length wday <> length sales -> length wday <> 1%nat ->
  length (log_state_delta theta) = (length (arg_contrasts_sdif_t a) - 1)%nat ->
  length (wday_coefficients theta) = 6%nat ->
  length (yday_coefficients theta) = 12%nat ->
  exists e, run_model theta a = Raise e.
Proof.
  intros Ha Hn Hy Hw Hw1 Hdelta Hwc Hyc.
  destruct (model_parts_ok theta sales log_price wday yday_fraction c a
              Ha Hdelta Hwc Hyc) as [trend [w [y [Hrun [Ht [Hwl Hyl]]]]]].
  rewrite Hrun. unfold log_rate.
  rewrite add_same_length by congruence. cbv beta iota delta [bind].
  assert (Hs : length (Np.zip_with Rplus trend y) = length sales)
    by (rewrite zip_with_length; congruence).
  rewrite add_mismatch by lia. eexists. reflexivity.
Qed.

Lemma mismatched_weekday_column_raises_witness :
  exists a,
    prepare_model_arguments [3%nat; 4%nat; 5%nat] [1; 2; 3] [1%Z; 2%Z]
      [0; 1 / 365; 2 / 365] 2 = Ok a /\
    exists e, run_model theta_example a = Raise e.
Proof.
  assert (Ha : { a | prepare_model_arguments [3%nat; 4%nat; 5%nat] [1; 2; 3]
                       [1%Z; 2%Z] [0; 1 / 365; 2 / 365] 2 = Ok a
                     /\ length (arg_contrasts_sdif_t a) = 2%nat }).
  { unfold prepare_model_arguments.
    rewrite n_states_of_downsampled by lia. eexists. split; reflexivity. }
  destruct Ha as [a [Ha Hlen]]. exists a. split; [exact Ha|].
  apply (mismatched_weekday_column_raises theta_example
           [3%nat; 4%nat; 5%nat] [1; 2; 3] [1%Z; 2%Z]
           [0; 1 / 365; 2 / 365] 2 a); try reflexivity.
  - exact Ha.
  - simpl. lia.
  - simpl. lia.
  - simpl. lia.
  - rewrite Hlen. reflexivity.
Defined.

(** ** Day-of-year fraction of [read_data] *)

(** Extra X22.  For an ordinal day between 1 and the length of its year, the
    day-of-year fraction computed by [read_data] lies in (0, 1], and it is
    exactly 1 on the last day of the year: the fractions are not confined to
    [0, 1). *)
Theorem yday_fraction_range (yday : nat) (is_leap_year : bool) :
  (1 <= yday <= 365 + (if is_leap_year then 1 else 0))%nat ->
  0 < yday_fraction_of yday is_leap_year <= 1 /\
  (yday_fraction_of yday is_leap_year = 1
   <-> yday = (365 + (if is_leap_year then 1 else 0))%nat).
Proof.
  intros [Hlo Hhi]. unfold yday_fraction_of.
  set (days := 365 + (if is_leap_year then 1 else 0)).
  assert (Hdays : days = INR (365 + (if is_leap_year then 1 else 0))).
  { unfold days. rewrite plus_INR. f_equal.
    - rewrite INR_IZR_INZ. reflexivity.
    - destruct is_leap_year; reflexivity. }
  assert (Hpos : 0 < days) by (unfold days; destruct is_leap_year; lra).
  assert (Hy : 1 <= INR yday) by (apply (le_INR 1); exact Hlo).
  assert (Hle : INR yday <= days) by (rewrite Hdays; now apply le_INR).
  split; [split|split].
  - apply Rmult_lt_0_compat; [lra|now apply Rinv_0_lt_compat].
  - apply (Rmult_le_reg_r days); [assumption|].
    unfold Rdiv. rewrite Rmult_assoc, Rinv_l by lra. lra.
  - intros H. apply INR_eq. rewrite <- Hdays.
    apply (f_equal (fun z => z * days)) in H.
    unfold Rdiv in H. rewrite Rmult_assoc, Rinv_l in H by lra. lra.
  - intros ->. rewrite <- Hdays. field. lra.
Qed.

Lemma yday_fraction_range_witness :
  0 < yday_fraction_of 366 true <= 1 /\
  (yday_fraction_of 366 true = 1 <-> 366%nat = (365 + 1)%nat).
Proof.
  apply (yday_fraction_range 366 true). simpl. lia.
Defined.

(** ** The discarded price effect *)

Lemma shift_by_mean_sums_to_zero (a : vec) :
  Np.sum (Np.shift a (- Np.mean a)) = 0.
Proof.
  rewrite sum_shift. unfold Np.mean.
  destruct a as [|x a]; [simpl; lra|].
  assert (INR (length (x :: a)) <> 0) by (apply not_0_INR; simpl; lia).
  field. assumption.
Qed.

(** Extra X23.  The price effect that the model computes from prepared
    arguments (and then leaves out of the rate) has one entry per log price
    and sums to zero over the observations, whatever the elasticity: the
    log price is centred before it is scaled. *)
Theorem prepared_price_effect_sums_to_zero (theta : sites) (sales : list nat)
    (log_price : vec) (wday : list Z) (yday_fraction : vec) (c : Z)
    (a : model_arguments) :
  prepare_model_arguments sales log_price wday yday_fraction c = Ok a ->
  length (sample_price_effect theta (arg_log_price_centered a))
    = length log_price /\
  Np.sum (sample_price_effect theta (arg_log_price_centered a)) = 0.
Proof.
  intros Ha. apply prepare_inversion in Ha.
  destruct Ha as [n_states [_ [_ ->]]]. simpl arg_log_price_centered.
  unfold sample_price_effect, Np.scale. split.
  - unfold Np.shift. now rewrite !length_map.
  - rewrite (sum_map_scale (fun x => x)), map_id,
      shift_by_mean_sums_to_zero. ring.
Qed.

Lemma prepared_price_effect_sums_to_zero_witness :
  length (sample_price_effect theta_example
            (arg_log_price_centered three_observations))
    = length [1; 2; 3] /\
  Np.sum (sample_price_effect theta_example
            (arg_log_price_centered three_observations)) = 0.
Proof.
  apply (prepared_price_effect_sums_to_zero theta_example
           [3%nat; 4%nat; 5%nat] [1; 2; 3] [1%Z; 2%Z; 3%Z]
           [0; 1 / 365; 2 / 365] 2 three_observations).
  apply three_observations_prepared.
Defined.
